(** * Bayesian linear regression with evidence approximation

    A shallow embedding of [bayesian_regression.py] (class
    [BayesianRegression]) and the properties of its constructor, of
    [_weights_posterior_params], [_evidence_approx], [fit] and [predict].

    Conventions of the embedding.
    - numpy's double-precision scalars are an abstract type [F] with the
      operations the source applies to them ([Float64]); no algebraic law is
      assumed, so every general theorem holds for IEEE arithmetic as well as
      for exact arithmetic.  Concrete runs use exact rationals ([Qfloat]).
    - 1-D arrays are lists, 2-D arrays are lists of rows.  Arrays are taken
      to be conformant where the source multiplies them; numpy's shape
      errors are outside the model.
    - [np.linalg.svd] and [np.random.random] are library calls: the
      factorisation is an argument of the constructor and the two random
      draws are an argument of [_evidence_approx] and [fit].
    - Python 3 semantics for [/] (true division).  [max_iter] is a natural
      number: [range] of a negative int is empty, like [range(0)].
    - A method is a computation over a [world] (the instance, the module
      namespace, the caller's array) that may raise; writes made before an
      exception persist, as in Python. *)

From Stdlib Require Import ZArith QArith Lia.
From stdpp Require Import base list strings gmap.

(** ** Scalars *)

Class Float64 (F : Type) := {
  fadd : F -> F -> F;
  fsub : F -> F -> F;
  fmul : F -> F -> F;
  fdiv : F -> F -> F;          (* numpy division: never raises *)
  flog : F -> F;               (* np.log *)
  fltb : F -> F -> bool;       (* a < b *)
  of_Z : Z -> F                (* int -> float64 *)
}.

(** Exceptions raised by the source.  [NotFittedError] is raised by no
    statement of the source; it is listed so that statements about it can be
    written down. *)
Inductive exn :=
| ValueError
| NameError
| AttributeError
| ZeroDivisionError
| NotFittedError.

(* 1-D and 2-D arrays *)
Abbreviation vector A := (list A) (only parsing).
Abbreviation matrix A := (list (list A)) (only parsing).

Section Model.

Context {F : Type} `{Float64 F}.

Definition f0 : F := of_Z 0.
Definition f1 : F := of_Z 1.

(** ** numpy array operations *)

(* np.sum over a 1-D array *)
Definition np_sum (a : vector F) : F := fold_left fadd a f0.

(* np.dot(a, b), both 1-D *)
Definition vdot (a b : vector F) : F := np_sum (zip_with fmul a b).

Definition ncols (A : matrix F) : nat := length (hd [] A).
Definition col (j : nat) (A : matrix F) : vector F := map (fun r => nth j r f0) A.

(* A.T *)
Definition transpose (A : matrix F) : matrix F :=
  map (fun j => col j A) (seq 0 (ncols A)).

(* np.dot(A, b), A 2-D and b 1-D *)
Definition np_dot_mv (A : matrix F) (b : vector F) : vector F :=
  map (fun r => vdot r b) A.

(* np.dot(a, B), a 1-D and B 2-D *)
Definition np_dot_vm (a : vector F) (B : matrix F) : vector F :=
  map (fun j => vdot a (col j B)) (seq 0 (ncols B)).

(* np.dot(A, B), both 2-D *)
Definition np_dot_mm (A B : matrix F) : matrix F :=
  map (fun r => np_dot_vm r B) A.

(* np.diag(a), a 1-D *)
Definition np_diag (a : vector F) : matrix F :=
  map (fun i => map (fun j => if Nat.eqb i j then nth i a f0 else f0)
                    (seq 0 (length a)))
      (seq 0 (length a)).

(* element-wise operations and scalar broadcasts *)
Definition vmap (f : F -> F) (a : vector F) : vector F := map f a.
Definition mmap (f : F -> F) (A : matrix F) : matrix F := map (map f) A.
Definition vsub (a b : vector F) : vector F := zip_with fsub a b.
Definition vdiv (a b : vector F) : vector F := zip_with fdiv a b.
Definition vsq (a : vector F) : vector F := vmap (fun x => fmul x x) a.  (* a**2 *)

(* A - b with the 1-D b broadcast over the rows of A *)
Definition msub_row (A : matrix F) (b : vector F) : matrix F :=
  map (fun r => vsub r b) A.

(* np.mean(a) and np.mean(A, axis = 0) *)
Definition np_mean (a : vector F) : F :=
  fdiv (np_sum a) (of_Z (Z.of_nat (length a))).
Definition np_mean_axis0 (A : matrix F) : vector F :=
  map (fun j => np_mean (col j A)) (seq 0 (ncols A)).

(* np.outer(a, b) and np.ones(n) *)
Definition np_outer (a b : vector F) : matrix F :=
  map (fun x => map (fun y => fmul x y) b) a.
Definition np_ones (n : nat) : vector F := repeat f1 n.

(** ** Python values whose type changes at run time *)

Inductive pynum :=
| PyInt (z : Z)             (* a Python int *)
| NpFloat (x : F).          (* a numpy float64 *)

Inductive pyobj :=
| Num (n : pynum)
| Arr1 (a : vector F)
| Arr2 (A : matrix F).

(* the float64 an int becomes inside an array expression *)
Definition to_F (n : pynum) : F :=
  match n with PyInt z => of_Z z | NpFloat x => x end.

(** ** The instance, the world and the monad of methods *)

Record instance := {
  mu_X : vector F;
  X : matrix F;
  mu_Y : F;
  Y : vector F;
  thresh : F;
  bias_term : option F;           (* None: the attribute was never assigned *)
  u : matrix F;
  d : vector F;
  v : matrix F;
  alpha : pynum;
  beta : pynum;
  w_mu : pyobj;
  w_precison : pyobj;             (* sic: assigned in __init__ only *)
  w_precision : option (matrix F);   (* None until fit assigns it *)
  diag : option (vector F)           (* None until _weights_posterior_params *)
}.

Record world := {
  self : instance;
  global_Y : option (vector F);   (* the module-level name Y, if bound *)
  arg_x : matrix F                (* the array object the caller passes to predict *)
}.

(** What the evidence loop has computed so far, in order. *)
Inductive event :=
| EvMean (mu : vector F)          (* lines 117-119 *)
| EvResidual (sqdErr : F)         (* lines 122-123 *)
| EvUpdate (alpha' beta' : F)     (* lines 128-132 or 137-138 *)
| EvLogLike (log_like : F).       (* lines 145-147 *)

Definition M (A : Type) : Type := world -> (exn + A) * world * list event.

Definition ret {A} (a : A) : M A := fun w => (inr a, w, []).

Definition bind {A B} (m : M A) (f : A -> M B) : M B :=
  fun w =>
    match m w with
    | (inl e, w1, l1) => (inl e, w1, l1)
    | (inr a, w1, l1) =>
        match f a w1 with
        | (r, w2, l2) => (r, w2, l1 ++ l2)
        end
    end.

Definition raise {A} (e : exn) : M A := fun w => (inl e, w, []).
Definition emit (e : event) : M unit := fun w => (inr tt, w, [e]).
Definition get_self : M instance := fun w => (inr (self w), w, []).
Definition set_self (f : instance -> instance) : M unit :=
  fun w =>
    (inr tt, {| self := f (self w); global_Y := global_Y w; arg_x := arg_x w |}, []).
Definition get_arg_x : M (matrix F) := fun w => (inr (arg_x w), w, []).

(* reading the free name Y inside a method: a module-global lookup *)
Definition lookup_global_Y : M (vector F) :=
  fun w => match global_Y w with
           | Some y => (inr y, w, [])
           | None => (inl NameError, w, [])
           end.

Notation "'let!' x ':=' c1 'in' c2" := (bind c1 (fun x => c2))
  (at level 10, x pattern, c1 at level 100, c2 at level 200).
Notation "'run!' c1 'in' c2" := (bind c1 (fun _ => c2))
  (at level 10, c1 at level 100, c2 at level 200).

Definition of_nat (n : nat) : F := of_Z (Z.of_nat n).

(* a + s, s * a, A + s, s + A and s * A with the scalar s broadcast *)
Definition vadds (a : vector F) (s : F) : vector F := vmap (fun e => fadd e s) a.
Definition vscale (s : F) (a : vector F) : vector F := vmap (fun e => fmul s e) a.
Definition madds (A : matrix F) (s : F) : matrix F := mmap (fun e => fadd e s) A.
Definition sadd_m (s : F) (A : matrix F) : matrix F := mmap (fun e => fadd s e) A.
Definition mscale (s : F) (A : matrix F) : matrix F := mmap (fun e => fmul s e) A.
Definition msub (A B : matrix F) : matrix F := zip_with vsub A B.

(* a / b on two Python-level scalars: int / int raises on a zero divisor,
   anything involving a float64 is numpy's division *)
Definition py_truediv (a b : pynum) : M F :=
  match a, b with
  | PyInt p, PyInt q =>
      if Z.eqb q 0 then raise ZeroDivisionError
      else ret (fdiv (of_Z p) (of_Z q))
  | _, _ => ret (fdiv (to_F a) (to_F b))
  end.

(* l[-k] for 1 <= k <= len(l) *)
Definition py_index_neg (l : list F) (k : nat) : F := nth (length l - k) l f0.

Definition set_alpha (a : pynum) (s : instance) : instance :=
  {| mu_X := mu_X s; X := X s; mu_Y := mu_Y s; Y := Y s; thresh := thresh s;
     bias_term := bias_term s; u := u s; d := d s; v := v s;
     alpha := a; beta := beta s; w_mu := w_mu s; w_precison := w_precison s;
     w_precision := w_precision s; diag := diag s |}.

Definition set_beta (b : pynum) (s : instance) : instance :=
  {| mu_X := mu_X s; X := X s; mu_Y := mu_Y s; Y := Y s; thresh := thresh s;
     bias_term := bias_term s; u := u s; d := d s; v := v s;
     alpha := alpha s; beta := b; w_mu := w_mu s; w_precison := w_precison s;
     w_precision := w_precision s; diag := diag s |}.

Definition set_w_mu (o : pyobj) (s : instance) : instance :=
  {| mu_X := mu_X s; X := X s; mu_Y := mu_Y s; Y := Y s; thresh := thresh s;
     bias_term := bias_term s; u := u s; d := d s; v := v s;
     alpha := alpha s; beta := beta s; w_mu := o; w_precison := w_precison s;
     w_precision := w_precision s; diag := diag s |}.

Definition set_w_precision (P : matrix F) (s : instance) : instance :=
  {| mu_X := mu_X s; X := X s; mu_Y := mu_Y s; Y := Y s; thresh := thresh s;
     bias_term := bias_term s; u := u s; d := d s; v := v s;
     alpha := alpha s; beta := beta s; w_mu := w_mu s; w_precison := w_precison s;
     w_precision := Some P; diag := diag s |}.

Definition set_diag (g : vector F) (s : instance) : instance :=
  {| mu_X := mu_X s; X := X s; mu_Y := mu_Y s; Y := Y s; thresh := thresh s;
     bias_term := bias_term s; u := u s; d := d s; v := v s;
     alpha := alpha s; beta := beta s; w_mu := w_mu s; w_precison := w_precison s;
     w_precision := w_precision s; diag := Some g |}.

(** ** [__init__] (lines 26-46) *)

Definition init (svd : matrix F -> matrix F * vector F * matrix F)
    (X0 : matrix F) (Y0 : vector F) (bias : bool) (thresh0 : F) : instance :=
  let mu_X0 := np_mean_axis0 X0 in
  let Xc := msub X0 (transpose (np_outer mu_X0 (np_ones (length X0)))) in
  let mu_Y0 := np_mean Y0 in
  let Yc := vmap (fun y => fsub y (np_mean Y0)) Y0 in
  let '(u0, d0, v0) := svd Xc in
  {| mu_X := mu_X0; X := Xc; mu_Y := mu_Y0; Y := Yc; thresh := thresh0;
     bias_term := if bias then Some mu_Y0 else None;
     u := u0; d := d0; v := v0;
     alpha := PyInt 0; beta := PyInt 0;
     w_mu := Num (PyInt 0); w_precison := Num (PyInt 0);
     w_precision := None; diag := None |}.

(** ** [_weights_posterior_params] (lines 77-82) *)

(* line 77: beta*np.dot(self.X.T,self.X)+alpha *)
Definition posterior_precision (s : instance) (alpha0 beta0 : pynum) : matrix F :=
  madds (mscale (to_F beta0) (np_dot_mm (transpose (X s)) (X s))) (to_F alpha0).

(* lines 79-81, with g the vector just stored in self.diag *)
Definition posterior_mean (s : instance) (g : vector F) (y : vector F) : vector F :=
  let p1 := np_dot_mm (transpose (v s)) (np_diag g) in
  let p2 := np_dot_mv (transpose (u s)) y in
  np_dot_mv p1 p2.

Definition _weights_posterior_params (alpha0 beta0 : pynum) : M (vector F * matrix F) :=
  let! s := get_self in
  let precision := posterior_precision s alpha0 beta0 in
  let! r := py_truediv alpha0 beta0 in
  let g := vdiv (d s) (vadds (vsq (d s)) r) in
  run! set_self (set_diag g) in
  let! s := get_self in
  let w_mu0 := posterior_mean s g (Y s) in
  ret (w_mu0, precision).

(** ** [_evidence_approx] (lines 104-156) *)

(* lines 117-119; y is the value of the free name Y *)
Definition ea_mean (s : instance) (y : vector F) (dsq : vector F) (alpha0 beta0 : F)
    : vector F :=
  let p1_mu := np_dot_mm (transpose (v s))
                 (np_diag (vdiv (d s) (vadds dsq (fdiv alpha0 beta0)))) in
  let p2_mu := np_dot_mv (transpose (u s)) y in
  np_dot_mv p1_mu p2_mu.

(* lines 122-123 *)
Definition ea_sqdErr (s : instance) (mu : vector F) : F :=
  let error := vsub (Y s) (np_dot_mv (X s) mu) in
  vdot error error.

(* beta*dsq + alpha *)
Definition bdsq_a (beta0 : F) (dsq : vector F) (alpha0 : F) : vector F :=
  vadds (vscale beta0 dsq) alpha0.

(* lines 128-132 *)
Definition fixed_point_update (n : nat) (dsq mu : vector F) (sqdErr alpha0 beta0 : F)
    : F * F :=
  let gamma := np_sum (vdiv (vscale beta0 dsq) (bdsq_a beta0 dsq alpha0)) in
  let alpha1 := fdiv gamma (vdot mu mu) in
  let beta1 := fdiv (fsub (of_nat n) gamma) sqdErr in
  (alpha1, beta1).

(* lines 137-138: the second assignment reads the alpha assigned by the first *)
Definition EM_update (n m : nat) (dsq mu : vector F) (sqdErr alpha0 beta0 : F)
    : F * F :=
  let alpha1 := fdiv (of_nat m)
                  (fadd (vdot mu mu)
                        (np_sum (vmap (fun e => fdiv f1 e) (bdsq_a beta0 dsq alpha0)))) in
  let beta1 := fdiv (of_nat n)
                  (fadd sqdErr
                        (np_sum (vdiv dsq (bdsq_a beta0 dsq alpha1)))) in
  (alpha1, beta1).

(* lines 145-146, at the updated alpha and beta *)
Definition ea_log_like (n m : nat) (dsq mu : vector F) (sqdErr alpha1 beta1 : F) : F :=
  let normaliser :=
    fsub (fadd (fmul (fdiv (of_nat m) (of_Z 2)) (flog alpha1))
               (fmul (fdiv (of_nat n) (of_Z 2)) (flog beta1)))
         (fmul (fdiv (of_Z 1) (of_Z 2))
               (np_sum (vmap flog (bdsq_a beta1 dsq alpha1)))) in
  fsub (fsub normaliser (fmul (fdiv alpha1 (of_Z 2)) (vdot mu mu)))
       (fmul (fdiv beta1 (of_Z 2)) sqdErr).

(* one pass through the body of the for loop, up to the append (line 147).
   Line 117 reads instance fields and locals only, so it cannot fail before
   the lookup of Y on line 118. *)
Definition ea_iteration (method : string) (n m : nat) (dsq : vector F)
    (alpha0 beta0 : F) : M (F * F * F) :=
  let! s := get_self in
  let! y := lookup_global_Y in
  let mu := ea_mean s y dsq alpha0 beta0 in
  run! emit (EvMean mu) in
  let sqdErr := ea_sqdErr s mu in
  run! emit (EvResidual sqdErr) in
  let! ab :=
    if String.eqb method "fixed-point" then
      ret (fixed_point_update n dsq mu sqdErr alpha0 beta0)
    else if String.eqb method "EM" then
      ret (EM_update n m dsq mu sqdErr alpha0 beta0)
    else raise ValueError in
  run! emit (EvUpdate (fst ab) (snd ab)) in
  let log_like := ea_log_like n m dsq mu sqdErr (fst ab) (snd ab) in
  run! emit (EvLogLike log_like) in
  ret (fst ab, snd ab, log_like).

(* the for loop: [fuel] passes remain, [i] is the loop variable *)
Fixpoint ea_loop (method : string) (n m : nat) (dsq : vector F)
    (fuel i : nat) (alpha0 beta0 : F) (log_likes : list F) : M (F * F) :=
  match fuel with
  | O => ret (alpha0, beta0)
  | S fuel' =>
      let! r := ea_iteration method n m dsq alpha0 beta0 in
      let log_likes' := log_likes ++ [snd r] in
      let! s := get_self in
      if (1 <=? i)%nat &&
         fltb (fsub (py_index_neg log_likes' 1) (py_index_neg log_likes' 2))
              (thresh s)
      then ret (fst r)
      else ea_loop method n m dsq fuel' (S i) (fst (fst r)) (snd (fst r)) log_likes'
  end.

Definition _evidence_approx (max_iter : nat) (method : string) (rnd : F * F)
    : M unit :=
  let! s := get_self in
  let n := length (X s) in
  let m := ncols (X s) in
  let dsq := vsq (d s) in
  let! ab := ea_loop method n m dsq max_iter 0 (fst rnd) (snd rnd) [] in
  run! set_self (set_alpha (NpFloat (fst ab))) in
  set_self (set_beta (NpFloat (snd ab))).

(** ** [fit] (lines 182-194) *)

Definition fit (evidence_approx_method : string) (max_iter : nat) (rnd : F * F)
    : M (gmap string pyobj) :=
  let parameters : gmap string pyobj := ∅ in
  run! _evidence_approx max_iter evidence_approx_method rnd in
  let! s := get_self in
  let! wp := _weights_posterior_params (alpha s) (beta s) in
  run! set_self (set_w_mu (Arr1 (fst wp))) in
  run! set_self (set_w_precision (snd wp)) in
  let! s := get_self in
  let! parameters :=
    match bias_term s with
    | None => raise AttributeError
    | Some _ => ret (<["bias_term" := Num (NpFloat (mu_Y s))]> parameters)
    end in
  let parameters := <["weights" := w_mu s]> parameters in
  match w_precision s with
  | None => raise AttributeError
  | Some P => ret (<["precision" := Arr2 P]> parameters)
  end.

(** ** [predict] (lines 216-221) *)

Definition predict : M (pyobj * matrix F) :=
  let! x0 := get_arg_x in
  let! s := get_self in
  let x := msub_row x0 (mu_X s) in
  let mu_pred :=
    match w_mu s with
    | Num c => Arr2 (madds (mmap (fun e => fmul e (to_F c)) x) (mu_Y s))
    | Arr1 w => Arr1 (vadds (np_dot_mv x w) (mu_Y s))
    | Arr2 W => Arr2 (madds (np_dot_mm x W) (mu_Y s))
    end in
  let d' := vmap (fun e => fdiv f1 e)
              (bdsq_a (to_F (beta s)) (vsq (d s)) (to_F (alpha s))) in
  let D := np_dot_mm (np_dot_mm (transpose (v s)) (np_diag d')) (v s) in
  let! inv_beta := py_truediv (PyInt 1) (beta s) in
  let var_pred := sadd_m inv_beta (np_dot_mm (np_dot_mm x D) (transpose x)) in
  ret (mu_pred, var_pred).

(** ** Observations on a run, and the vocabulary of the properties *)

Definition res {A} (r : (exn + A) * world * list event) : exn + A := fst (fst r).
Definition final {A} (r : (exn + A) * world * list event) : world := snd (fst r).
Definition trace {A} (r : (exn + A) * world * list event) : list event := snd r.

Definition valid_method (method : string) : Prop :=
  method = "EM" \/ method = "fixed-point".

(* the update the loop applies for a valid method name *)
Definition update_of (method : string) (n m : nat) (dsq mu : vector F)
    (sqdErr alpha0 beta0 : F) : F * F :=
  if String.eqb method "fixed-point"
  then fixed_point_update n dsq mu sqdErr alpha0 beta0
  else EM_update n m dsq mu sqdErr alpha0 beta0.

(* the log-likelihoods appended to log_likes, in order: one per completed pass *)
Definition loglikes_of (l : list event) : list F :=
  omap (fun e => match e with EvLogLike x => Some x | _ => None end) l.

(* the comparison of line 151 after the j-th pass, j counted from 1 *)
Definition stop_test (thr : F) (lls : list F) (j : nat) : bool :=
  fltb (fsub (nth (j - 1) lls f0) (nth (j - 2) lls f0)) thr.

Definition has_shape (A : matrix F) (r c : nat) : Prop :=
  length A = r /\ Forall (fun row => length row = c) A.

(* the state fit leaves behind: float hyperparameters and a weight vector *)
Definition fitted (s : instance) (a b : F) (wm : vector F) : Prop :=
  alpha s = NpFloat a /\ beta s = NpFloat b /\ w_mu s = Arr1 wm.

(** Two definitions that follow the specification's words, for comparison
    with [EM_update] and [posterior_precision]. *)

(* both EM updates evaluated at the previous alpha and beta *)
Definition EM_update_snapshot (n m : nat) (dsq mu : vector F) (sqdErr alpha0 beta0 : F)
    : F * F :=
  (fdiv (of_nat m)
        (fadd (vdot mu mu)
              (np_sum (vmap (fun e => fdiv f1 e) (bdsq_a beta0 dsq alpha0)))),
   fdiv (of_nat n)
        (fadd sqdErr (np_sum (vdiv dsq (bdsq_a beta0 dsq alpha0))))).

(* beta (X^T X) with alpha added to the diagonal entries only *)
Definition add_to_diagonal (A : matrix F) (a : F) : matrix F :=
  imap (fun i r => imap (fun j e => if Nat.eqb i j then fadd e a else e) r) A.
Definition posterior_precision_spec (s : instance) (alpha0 beta0 : F) : matrix F :=
  add_to_diagonal (mscale beta0 (np_dot_mm (transpose (X s)) (X s))) alpha0.

(** ** The script under [if __name__=="__main__"] (lines 226-232) *)

(* np.linspace(start, stop, num), num >= 2: arange(num)*step + start with the
   last element set to stop *)
Definition np_linspace (start stop : F) (num : nat) : vector F :=
  let step := fdiv (fsub stop start) (of_nat (num - 1)) in
  map (fun i => fadd (fmul (of_nat i) step) start) (seq 0 (num - 1)) ++ [stop].

(* The script binds X and Y at module level, so the name Y read by the loop
   is bound to the raw response.  [eps] is the float literal 1e-5 (the default
   of thresh), [noise] the draws of np.random.random(100). *)
Definition main (svd : matrix F -> matrix F * vector F * matrix F)
    (eps : F) (noise : vector F) (rnd : F * F)
    : (exn + gmap string pyobj * (pyobj * matrix F)) * world * list event :=
  let col0 := np_linspace (of_Z 1) (of_Z 10) 100 in
  let X0 := map (fun e => [e]) col0 in
  let Y0 := zip_with fadd
              (zip_with fadd (vscale (of_Z 4) col0) (vscale (of_Z 5) noise))
              (vscale (of_Z 10) (np_ones 100)) in
  let br := init svd X0 Y0 true eps in
  (let! prs := fit "fixed-point" 100 rnd in
   let! r := predict in
   ret (prs, r))
    {| self := br; global_Y := Some Y0; arg_x := X0 |}.

(** ** Further vocabulary *)

(* A[i][j], when it exists *)
Definition entry (A : matrix F) (i j : nat) : option F :=
  match A !! i with Some r => r !! j | None => None end.

(* the parts of the world that [fit] reads: everything except what an
   earlier fit may have written *)
Definition same_inputs (w1 w2 : world) : Prop :=
  mu_X (self w1) = mu_X (self w2) /\ X (self w1) = X (self w2) /\
  mu_Y (self w1) = mu_Y (self w2) /\ Y (self w1) = Y (self w2) /\
  thresh (self w1) = thresh (self w2) /\
  bias_term (self w1) = bias_term (self w2) /\
  u (self w1) = u (self w2) /\ d (self w1) = d (self w2) /\
  v (self w1) = v (self w2) /\
  w_precison (self w1) = w_precison (self w2) /\
  global_Y w1 = global_Y w2 /\ arg_x w1 = arg_x w2.

(* the world after lines 155-156 have stored a and b *)
Definition hyper_written (a b : F) (w : world) : world :=
  {| self := set_beta (NpFloat b) (set_alpha (NpFloat a) (self w));
     global_Y := global_Y w; arg_x := arg_x w |}.

(* the world after line 188, and what lines 190-194 then do, when the loop
   has ended with a and b *)
Definition posterior_written (a b : F) (w : world) : world :=
  let s := set_beta (NpFloat b) (set_alpha (NpFloat a) (self w)) in
  let g := vdiv (d s) (vadds (vsq (d s)) (fdiv a b)) in
  {| self := set_w_precision (posterior_precision s (NpFloat a) (NpFloat b))
               (set_w_mu (Arr1 (posterior_mean (set_diag g s) g (Y s)))
                  (set_diag g s));
     global_Y := global_Y w; arg_x := arg_x w |}.

Definition fit_result (a b : F) (w : world) : exn + gmap string pyobj :=
  match bias_term (self w) with
  | None => inl AttributeError
  | Some _ =>
      inr (<["precision" := Arr2 (posterior_precision (self w) (NpFloat a) (NpFloat b))]>
             (<["weights" :=
                  Arr1 (posterior_mean (self w)
                          (vdiv (d (self w)) (vadds (vsq (d (self w))) (fdiv a b)))
                          (Y (self w)))]>
                (<["bias_term" := Num (NpFloat (mu_Y (self w)))]> ∅)))
  end.

(* a world on which the array expressions of predict are conformant: a
   q x m query, m column means, a k x m factor V with k singular values, and
   weights that are still the int 0 or have one entry per feature *)
Definition predict_conformant (w : world) (q k m : nat) : Prop :=
  0 < k /\ 0 < m /\
  has_shape (arg_x w) q m /\ length (mu_X (self w)) = m /\
  has_shape (v (self w)) k m /\ length (d (self w)) = k /\
  match w_mu (self w) with
  | Num _ => True
  | Arr1 wm => length wm = m
  | Arr2 W => exists c, has_shape W m c
  end.

(* the same world with another array handed to predict *)
Definition with_arg_x (x : matrix F) (w : world) : world :=
  {| self := self w; global_Y := global_Y w; arg_x := x |}.

End Model.

Arguments pynum : clear implicits.
Arguments pyobj : clear implicits.
Arguments instance : clear implicits.
Arguments world : clear implicits.
Arguments event : clear implicits.

(** ** Exact rational arithmetic, for running the model

    Division by zero yields 0 and the logarithm is a truncated series
    (value 0 outside the positive rationals); the runs below neither divide
    by zero nor take the logarithm of a non-positive number. *)

Fixpoint atanh_series (z2 : Q) (k : nat) (j : Z) (zp : Q) : Q :=
  match k with
  | O => 0
  | S k' => Qred (zp / inject_Z j + atanh_series z2 k' (j + 2) (Qred (zp * z2)))
  end.

(* ln x = 2 atanh ((x - 1) / (x + 1)), four terms of the series *)
Definition Qlog (x : Q) : Q :=
  match Qcompare 0 x with
  | Lt => let z := Qred ((x - 1) / (x + 1)) in
          Qred (2 * atanh_series (Qred (z * z)) 4 1 z)
  | _ => 0
  end.

#[export] Instance Qfloat : Float64 Q := {|
  fadd a b := Qred (a + b);
  fsub a b := Qred (a - b);
  fmul a b := Qred (a * b);
  fdiv a b := Qred (a / b);
  flog := Qlog;
  fltb a b := match Qcompare a b with Lt => true | _ => false end;
  of_Z := inject_Z
|}.

(** A first data set: four observations of one feature.  The centred column
    is (1, 1, -1, -1), of norm 2, so its economy SVD is rational. *)
Definition demo_X : matrix Q := [[3]; [3]; [1]; [1]]%Q.
Definition demo_Y : vector Q := [7; 9; 2; 2]%Q.
Definition demo_svd (_ : matrix Q) : matrix Q * vector Q * matrix Q :=
  ([[1 # 2]; [1 # 2]; [-1 # 2]; [-1 # 2]], [2], [[1]])%Q.
Definition demo_query : matrix Q := [[3]; [2]]%Q.
Definition demo_rnd : Q * Q := (1 # 2, 1 # 2)%Q.

(* the world after BayesianRegression(demo_X, demo_Y, bias, 1e-5) *)
Definition demo_world (bias : bool) (gY : option (vector Q)) : world Q :=
  {| self := init demo_svd demo_X demo_Y bias (1 # 100000)%Q;
     global_Y := gY;
     arg_x := demo_query |}.

(** A second data set with two features; the centred columns are orthogonal
    of norm 2, so U = X/2, d = (2, 2), V = I. *)
Definition demo2_X : matrix Q := [[1; 1]; [1; -1]; [-1; 1]; [-1; -1]]%Q.
Definition demo2_svd (_ : matrix Q) : matrix Q * vector Q * matrix Q :=
  ([[1 # 2; 1 # 2]; [1 # 2; -1 # 2]; [-1 # 2; 1 # 2]; [-1 # 2; -1 # 2]],
   [2; 2],
   [[1; 0]; [0; 1]])%Q.
Definition demo2_world : world Q :=
  {| self := init demo2_svd demo2_X demo_Y true (1 # 100000)%Q;
     global_Y := Some demo_Y;
     arg_x := [[1; 2]]%Q |}.

(* the first data set with the coarse threshold thresh = 0.1 *)
Definition demo_world_coarse : world Q :=
  {| self := init demo_svd demo_X demo_Y true (1 # 10)%Q;
     global_Y := Some demo_Y;
     arg_x := demo_query |}.

(* the first data set after one pass of fit *)
Definition demo_fitted : world Q :=
  final (fit "fixed-point" 1 demo_rnd (demo_world true (Some demo_Y))).

(** * Properties *)

Section Properties.

Context {F : Type} `{Float64 F}.

(** ** The evidence loop *)

Lemma ea_iteration_ok method n m dsq a b (w : world F) y :
  valid_method method -> global_Y w = Some y ->
  let mu := ea_mean (self w) y dsq a b in
  let sq := ea_sqdErr (self w) mu in
  let ab := update_of method n m dsq mu sq a b in
  let ll := ea_log_like n m dsq mu sq (fst ab) (snd ab) in
  ea_iteration method n m dsq a b w =
    (inr (fst ab, snd ab, ll), w,
     [EvMean mu; EvResidual sq; EvUpdate (fst ab) (snd ab); EvLogLike ll]).
Proof.
  intros Hm HY. unfold ea_iteration, update_of, bind, get_self, lookup_global_Y, emit, ret.
  rewrite HY. destruct Hm as [-> | ->]; reflexivity.
Qed.

Lemma ea_iteration_invalid method n m dsq a b (w : world F) y :
  method <> "EM" -> method <> "fixed-point" -> global_Y w = Some y ->
  let mu := ea_mean (self w) y dsq a b in
  ea_iteration method n m dsq a b w =
    (inl ValueError, w, [EvMean mu; EvResidual (ea_sqdErr (self w) mu)]).
Proof.
  intros H1 H2 HY. unfold ea_iteration, bind, get_self, lookup_global_Y, emit, ret, raise.
  rewrite HY.
  apply String.eqb_neq in H1, H2. rewrite H1, H2. reflexivity.
Qed.

Lemma ea_iteration_unbound method n m dsq a b (w : world F) :
  global_Y w = None ->
  ea_iteration method n m dsq a b w = (inl NameError, w, []).
Proof.
  intros HY. unfold ea_iteration, bind, get_self, lookup_global_Y. rewrite HY. reflexivity.
Qed.

Lemma ea_iteration_frame method n m dsq a b (w : world F) :
  final (ea_iteration method n m dsq a b w) = w.
Proof.
  unfold ea_iteration, final, bind, get_self, lookup_global_Y, emit, ret, raise.
  destruct (global_Y w); cbn; [|reflexivity].
  destruct (String.eqb method "fixed-point"); cbn; [reflexivity|].
  destruct (String.eqb method "EM"); reflexivity.
Qed.

Lemma ea_loop_frame method n m dsq fuel : forall i a b lls (w : world F),
  final (ea_loop method n m dsq fuel i a b lls w) = w.
Proof.
  induction fuel as [|fuel IH]; intros; [reflexivity|].
  cbn [ea_loop]. unfold bind at 1.
  pose proof (ea_iteration_frame method n m dsq a b w) as Hf.
  destruct (ea_iteration method n m dsq a b w) as [[[e|r] w1] l1]; cbn in Hf; subst w1;
    [reflexivity|].
  unfold bind, get_self. 
  destruct (_ && _).
  - reflexivity.
  - specialize (IH (S i) (fst (fst r)) (snd (fst r)) (lls ++ [snd r]) w).
    destruct (ea_loop _ _ _ _ _ _ _ _ _ _) as [[r2 w2] l2]. cbn in *. exact IH.
Qed.

Lemma ea_loop_step method n m dsq (w : world F) y fuel i a b lls :
  valid_method method -> global_Y w = Some y ->
  let mu := ea_mean (self w) y dsq a b in
  let sq := ea_sqdErr (self w) mu in
  let ab := update_of method n m dsq mu sq a b in
  let ll := ea_log_like n m dsq mu sq (fst ab) (snd ab) in
  let evs := [EvMean mu; EvResidual sq; EvUpdate (fst ab) (snd ab); EvLogLike ll] in
  ea_loop method n m dsq (S fuel) i a b lls w =
    if (1 <=? i)%nat &&
       fltb (fsub (py_index_neg (lls ++ [ll]) 1) (py_index_neg (lls ++ [ll]) 2))
            (thresh (self w))
    then (inr ab, w, evs)
    else
      let r := ea_loop method n m dsq fuel (S i) (fst ab) (snd ab) (lls ++ [ll]) w in
      (res r, final r, evs ++ trace r).
Proof.
  intros Hm HY. cbv zeta. cbn [ea_loop]. unfold bind at 1.
  rewrite (ea_iteration_ok method n m dsq a b w y Hm HY). cbv zeta.
  unfold bind, get_self. cbn [fst snd].
  destruct (_ && _).
  - cbn. rewrite <- surjective_pairing. reflexivity.
  - unfold res, final, trace. destruct (ea_loop _ _ _ _ _ _ _ _ _ _) as [[r2 w2] l2].
    reflexivity.
Qed.

Lemma ea_loop_stopping method n m dsq (w : world F) y :
  valid_method method -> global_Y w = Some y ->
  forall fuel i a b lls, length lls = i ->
  let r := ea_loop method n m dsq fuel i a b lls w in
  let new := loglikes_of (trace r) in
  (exists ab, res r = inr ab) /\
  length (trace r) = 4 * length new /\
  length new <= fuel /\
  (length new < fuel ->
     2 <= i + length new /\
     stop_test (thresh (self w)) (lls ++ new) (i + length new) = true) /\
  (forall j, i < j < i + length new -> 2 <= j ->
     stop_test (thresh (self w)) (lls ++ new) j = false).
Proof.
  intros Hm HY. induction fuel as [|fuel IH]; intros i a b lls Hlen.
  - unfold res, trace, loglikes_of. cbn. split; [eauto|]. split; [lia|]. split; [lia|].
    split; intros; lia.
  - cbv zeta. rewrite (ea_loop_step method n m dsq w y fuel i a b lls Hm HY). cbv zeta.
    set (mu := ea_mean (self w) y dsq a b).
    set (sq := ea_sqdErr (self w) mu).
    set (ab := update_of method n m dsq mu sq a b).
    set (ll := ea_log_like n m dsq mu sq (fst ab) (snd ab)).
    assert (Hl1 : length (lls ++ [ll]) = S i) by (rewrite length_app; cbn; lia).
    destruct ((1 <=? i)%nat && _) eqn:E.
    + unfold res, trace, loglikes_of. cbn. split; [eauto|]. split; [lia|].
      split; [lia|]. split; [|intros; lia].
      intros _. apply andb_true_iff in E as [E1 E2]. apply Nat.leb_le in E1.
      split; [lia|]. unfold stop_test. unfold py_index_neg in E2.
      rewrite Hl1 in E2. replace (i + 1 - 1) with (S i - 1) by lia.
      replace (i + 1 - 2) with (S i - 2) by lia. exact E2.
    + specialize (IH (S i) (fst ab) (snd ab) (lls ++ [ll]) Hl1).
      cbv zeta in IH.
      set (r2 := ea_loop method n m dsq fuel (S i) (fst ab) (snd ab) (lls ++ [ll]) w) in *.
      unfold res, trace in *. cbn [fst snd] in *.
      change (loglikes_of ([EvMean mu; EvResidual sq; EvUpdate (fst ab) (snd ab);
                            EvLogLike ll] ++ snd r2))
        with (ll :: loglikes_of (snd r2)).
      set (new := loglikes_of (snd r2)) in *.
      rewrite <- app_assoc in IH. cbn [app] in IH.
      destruct IH as (Hres & Hlen4 & Hle & Hstop & Hearlier).
      split; [exact Hres|]. rewrite length_app. cbn [length].
      split; [lia|]. split; [lia|]. split.
      * intros Hlt. destruct Hstop as [H2 Hs]; [lia|].
        replace (i + S (length new)) with (S i + length new) by lia. split; [lia|exact Hs].
      * intros j Hj H2. destruct (decide (j = S i)) as [->|Hne].
        -- apply andb_false_iff in E. destruct E as [E|E].
           ++ apply Nat.leb_gt in E. lia.
           ++ unfold stop_test. unfold py_index_neg in E. rewrite Hl1 in E.
              change (lls ++ ll :: new) with (lls ++ [ll] ++ new).
              rewrite app_assoc.
              rewrite !(app_nth1 (lls ++ [ll]) new) by lia. exact E.
        -- apply Hearlier; lia.
Qed.


Lemma ea_loop_invalid method n m dsq (w : world F) y fuel i a b lls :
  method <> "EM" -> method <> "fixed-point" -> global_Y w = Some y ->
  let mu := ea_mean (self w) y dsq a b in
  ea_loop method n m dsq (S fuel) i a b lls w =
    (inl ValueError, w, [EvMean mu; EvResidual (ea_sqdErr (self w) mu)]).
Proof.
  intros H1 H2 HY. cbv zeta. cbn [ea_loop]. unfold bind at 1.
  rewrite (ea_iteration_invalid method n m dsq a b w y H1 H2 HY). reflexivity.
Qed.

(** An exception inside [_evidence_approx] leaves the world as it was; a
    normal return has written the two hyperparameters and nothing else. *)
Lemma evidence_approx_cases max_iter method rnd (w : world F) :
  let r := _evidence_approx max_iter method rnd w in
  (exists e, res r = inl e /\ final r = w) \/
  (exists a b, res r = inr tt /\
     final r = {| self := set_beta (NpFloat b) (set_alpha (NpFloat a) (self w));
                  global_Y := global_Y w; arg_x := arg_x w |}).
Proof.
  cbv zeta. unfold _evidence_approx, bind, get_self, set_self, res, final.
  pose proof (ea_loop_frame method (length (X (self w))) (ncols (X (self w)))
                (vsq (d (self w))) max_iter 0 (fst rnd) (snd rnd) [] w) as Hf.
  unfold final in Hf.
  destruct (ea_loop _ _ _ _ _ _ _ _ _ _) as [[[e|ab] w1] l1]; cbn in Hf; subst w1; cbn.
  - left. eauto.
  - right. exists (fst ab), (snd ab). split; reflexivity.
Qed.

Lemma bind_raises {A B} (c : world F -> (exn + A) * world F * list (event F))
    (f : A -> world F -> (exn + B) * world F * list (event F)) w e w1 l1 :
  c w = (inl e, w1, l1) -> bind c f w = (inl e, w1, l1).
Proof. intros Hc. unfold bind. rewrite Hc. reflexivity. Qed.

Lemma fit_raises_in_evidence_approx method max_iter rnd (w : world F) e :
  res (_evidence_approx max_iter method rnd w) = inl e ->
  res (fit method max_iter rnd w) = inl e /\
  final (fit method max_iter rnd w) = w /\
  trace (fit method max_iter rnd w) = trace (_evidence_approx max_iter method rnd w).
Proof.
  intros He.
  destruct (evidence_approx_cases max_iter method rnd w) as [(e' & H1 & H2)|(a & b & H1 & _)];
    [|congruence].
  unfold res, final, trace in *.
  destruct (_evidence_approx max_iter method rnd w) as [[[e2|[]] w1] l1] eqn:E; cbn in *;
    [|discriminate].
  unfold fit. rewrite (bind_raises _ _ _ _ _ _ E). cbn.
  repeat split; congruence.
Qed.

(** What [fit] does once [_evidence_approx] has returned. *)
Lemma fit_after_evidence_approx method max_iter rnd (w w1 : world F) l1 a b :
  _evidence_approx max_iter method rnd w = (inr tt, w1, l1) ->
  alpha (self w1) = NpFloat a -> beta (self w1) = NpFloat b ->
  let s := self w1 in
  let g := vdiv (d s) (vadds (vsq (d s)) (fdiv a b)) in
  let wm := posterior_mean (set_diag g s) g (Y s) in
  let P := posterior_precision s (NpFloat a) (NpFloat b) in
  let w2 := {| self := set_w_precision P (set_w_mu (Arr1 wm) (set_diag g s));
               global_Y := global_Y w1; arg_x := arg_x w1 |} in
  fit method max_iter rnd w =
    match bias_term s with
    | None => (inl AttributeError, w2, l1)
    | Some _ =>
        (inr (<["precision" := Arr2 P]>
                (<["weights" := Arr1 wm]>
                   (<["bias_term" := Num (NpFloat (mu_Y s))]> ∅))), w2, l1)
    end.
Proof.
  intros Hea Ha Hb. cbv zeta. unfold fit, bind at 1. rewrite Hea.
  unfold bind, get_self, _weights_posterior_params, py_truediv, set_self, ret, raise.
  cbn. rewrite Ha, Hb. cbn.
  destruct (bias_term (self w1)); cbn; rewrite !app_nil_r; reflexivity.
Qed.

(** Without the attribute [bias_term], [fit] never returns normally. *)
Lemma fit_without_bias_attribute method max_iter rnd (w : world F) :
  bias_term (self w) = None ->
  exists e, res (fit method max_iter rnd w) = inl e.
Proof.
  intros Hb.
  destruct (evidence_approx_cases max_iter method rnd w) as [(e & H1 & H2)|(a & b & H1 & H2)].
  - exists e. apply fit_raises_in_evidence_approx. exact H1.
  - exists AttributeError. unfold res, final in *.
    destruct (_evidence_approx max_iter method rnd w) as [[r1 w1] l1] eqn:E.
    cbn in H1, H2. subst r1 w1.
    rewrite (fit_after_evidence_approx _ _ _ _ _ _ a b E eq_refl eq_refl).
    cbn. rewrite Hb. reflexivity.
Qed.

(** C5 (as amended).  For a method name other than "EM" and "fixed-point",
    with the module-level name Y bound and max_iter at least 1, [fit] raises
    ValueError during the first pass of the loop: the posterior mean and the
    squared residual of that pass have been computed, no hyperparameter
    update and no log-likelihood evaluation precedes the error, and the
    instance is left as it was. *)
Theorem fit_invalid_method method max_iter rnd (w : world F) y :
  method <> "EM" -> method <> "fixed-point" ->
  global_Y w = Some y -> max_iter <> 0 ->
  let mu := ea_mean (self w) y (vsq (d (self w))) (fst rnd) (snd rnd) in
  fit method max_iter rnd w =
    (inl ValueError, w, [EvMean mu; EvResidual (ea_sqdErr (self w) mu)]).
Proof.
  intros H1 H2 HY Hmax mu. destruct max_iter as [|fuel]; [congruence|].
  unfold fit. apply bind_raises.
  unfold _evidence_approx. unfold bind at 1. unfold get_self at 1.
  rewrite (bind_raises _ _ w ValueError w
             [EvMean mu; EvResidual (ea_sqdErr (self w) mu)]); [reflexivity|].
  apply ea_loop_invalid; assumption.
Qed.

(** C6 (as amended).  On a freshly constructed model [predict] returns no
    numeric result: it raises ZeroDivisionError at [1/self.beta], beta being
    the int 0 assigned by the constructor.  No not-fitted error exists. *)
Theorem predict_before_fit svd X0 Y0 bias thr gY (x : matrix F) :
  let w := {| self := init svd X0 Y0 bias thr; global_Y := gY; arg_x := x |} in
  predict w = (inl ZeroDivisionError, w, []).
Proof.
  cbv zeta. unfold init. destruct (svd _) as [[u0 d0] v0]. reflexivity.
Qed.

(** C9.  [predict] writes nothing: the instance (every field of it), the
    module namespace and the caller's array are the same after the call,
    whether it returns or raises; so a second call on the same input gives
    the same result. *)
Theorem predict_frame (w : world F) :
  final (predict w) = w /\
  predict (final (predict w)) = predict w.
Proof.
  assert (Hf : final (predict w) = w).
  { unfold predict, final, bind, get_arg_x, get_self, py_truediv, ret, raise.
    cbn. destruct (beta (self w)) as [z|b]; [destruct (Z.eqb z 0)|]; reflexivity. }
  split; [exact Hf|]. rewrite Hf. reflexivity.
Qed.

(** C7 (as amended).  With a valid method and the name Y bound,
    [_evidence_approx] returns normally after N complete passes of the loop body (N
    log-likelihoods appended, four steps per pass); N is at most max_iter; N
    is less than max_iter only if N >= 2 and the comparison
    [log_likes[N] - log_likes[N-1] < thresh] held after pass N; and that
    comparison failed after every earlier pass j >= 2.  The comparison is the
    directional [<] of line 151, so a decrease of the log-likelihood stops
    the loop as well. *)
Theorem evidence_approx_stopping_rule method max_iter rnd (w : world F) y :
  valid_method method -> global_Y w = Some y ->
  let r := _evidence_approx max_iter method rnd w in
  let lls := loglikes_of (trace r) in
  let N := length lls in
  res r = inr tt /\
  length (trace r) = 4 * N /\
  N <= max_iter /\
  (N < max_iter -> 2 <= N /\ stop_test (thresh (self w)) lls N = true) /\
  (forall j, 2 <= j < N -> stop_test (thresh (self w)) lls j = false).
Proof.
  intros Hm HY.
  pose proof (ea_loop_stopping method (length (X (self w))) (ncols (X (self w)))
                (vsq (d (self w))) w y Hm HY max_iter 0 (fst rnd) (snd rnd) []
                eq_refl) as Hl.
  pose proof (ea_loop_frame method (length (X (self w))) (ncols (X (self w)))
                (vsq (d (self w))) max_iter 0 (fst rnd) (snd rnd) [] w) as Hf.
  cbv zeta in *. unfold _evidence_approx, bind, get_self, set_self, res, final, trace in *.
  destruct (ea_loop _ _ _ _ _ _ _ _ _ _) as [[r1 w1] l1]. cbn in *. subst w1.
  destruct Hl as ((ab & ->) & Hlen4 & Hle & Hstop & Hearlier). cbn.
  rewrite !app_nil_r.
  split; [reflexivity|]. split; [exact Hlen4|]. split; [exact Hle|].
  split; [exact Hstop|].
  intros j Hj. apply Hearlier; lia.
Qed.


(** ** The two updates of the EM branch and the posterior precision *)

Lemma EM_update_alpha_at_previous_values n m dsq mu (sqdErr a b : F) :
  fst (EM_update n m dsq mu sqdErr a b) =
  fst (EM_update_snapshot n m dsq mu sqdErr a b).
Proof. reflexivity. Qed.

Lemma EM_update_beta_at_new_alpha n m dsq mu (sqdErr a b : F) :
  let alpha1 := fst (EM_update n m dsq mu sqdErr a b) in
  snd (EM_update n m dsq mu sqdErr a b) =
  fdiv (of_nat n) (fadd sqdErr (np_sum (vdiv dsq (bdsq_a b dsq alpha1)))).
Proof. reflexivity. Qed.

(* every entry of beta X^T X, on or off the diagonal, receives alpha *)
Lemma posterior_precision_every_entry (s : instance F) (a b : pynum F) :
  posterior_precision s a b =
  mmap (fun e => fadd (fmul (to_F b) e) (to_F a))
       (np_dot_mm (transpose (X s)) (X s)).
Proof.
  unfold posterior_precision, madds, mscale, mmap. rewrite map_map.
  apply map_ext. intros row. rewrite map_map. reflexivity.
Qed.

(** ** Array shapes *)

Lemma lookup_map {A B} (f : A -> B) (l : list A) i :
  map f l !! i = f <$> (l !! i).
Proof. revert i. induction l as [|a l IH]; intros [|i]; cbn; auto. Qed.

Lemma nth_map_lookup {A B} (f : A -> B) (l : list A) i a dflt :
  l !! i = Some a -> nth i (map f l) dflt = f a.
Proof.
  revert i. induction l as [|b l IH]; intros [|i]; cbn; try discriminate.
  - intros [= ->]. reflexivity.
  - apply IH.
Qed.

Lemma map_nth_seq (l : list F) dflt :
  map (fun j => nth j l dflt) (seq 0 (length l)) = l.
Proof.
  induction l as [|a l IH]; [reflexivity|].
  cbn [length seq map nth]. f_equal.
  rewrite <- seq_shift, map_map. exact IH.
Qed.

Lemma length_np_dot_vm (a : vector F) B : length (np_dot_vm a B) = ncols B.
Proof. unfold np_dot_vm. rewrite length_map, length_seq. reflexivity. Qed.

Lemma length_np_dot_mm (A B : matrix F) : length (np_dot_mm A B) = length A.
Proof. apply length_map. Qed.

Lemma np_dot_mm_shape (A B : matrix F) :
  has_shape (np_dot_mm A B) (length A) (ncols B).
Proof.
  unfold has_shape, np_dot_mm. split; [apply length_map|].
  apply List.Forall_forall. intros r Hr. apply in_map_iff in Hr as (a & <- & _).
  apply length_np_dot_vm.
Qed.

Lemma ncols_shape (A : matrix F) r c : has_shape A r c -> 0 < r -> ncols A = c.
Proof.
  intros [Hl Hr] Hpos. destruct A as [|a A]; cbn in *; [lia|].
  inversion Hr; subst; reflexivity.
Qed.

Lemma transpose_shape (A : matrix F) r c :
  has_shape A r c -> 0 < r -> has_shape (transpose A) c r.
Proof.
  intros HA Hpos. pose proof (ncols_shape A r c HA Hpos) as Hc.
  destruct HA as [Hl _]. unfold has_shape, transpose. rewrite Hc. split.
  - rewrite length_map, length_seq. reflexivity.
  - apply List.Forall_forall. intros row Hrow. apply in_map_iff in Hrow as (j & <- & _).
    unfold col. rewrite length_map. exact Hl.
Qed.

Lemma ncols_transpose (A : matrix F) r c :
  has_shape A r c -> 0 < c -> ncols (transpose A) = r.
Proof.
  intros HA Hc. destruct r as [|r].
  - destruct HA as [Hl _]. destruct A; [reflexivity|discriminate].
  - apply (ncols_shape _ c (S r)); [|exact Hc]. apply transpose_shape; [exact HA|lia].
Qed.

Lemma mmap_shape f (A : matrix F) r c : has_shape A r c -> has_shape (mmap f A) r c.
Proof.
  intros [Hl Hr]. unfold has_shape, mmap. split; [rewrite length_map; exact Hl|].
  apply List.Forall_forall. intros row Hrow. apply in_map_iff in Hrow as (a & <- & Ha).
  rewrite length_map. rewrite List.Forall_forall in Hr. apply Hr. exact Ha.
Qed.

Lemma msub_row_shape (A : matrix F) (b : vector F) r c :
  has_shape A r c -> length b = c -> has_shape (msub_row A b) r c.
Proof.
  intros [Hl Hr] Hb. unfold has_shape, msub_row. split; [rewrite length_map; exact Hl|].
  apply List.Forall_forall. intros row Hrow. apply in_map_iff in Hrow as (a & <- & Ha).
  unfold vsub. rewrite length_zip_with. rewrite List.Forall_forall in Hr.
  rewrite (Hr a Ha). lia.
Qed.

Lemma col_transpose (A : matrix F) r c i (a : vector F) :
  has_shape A r c -> A !! i = Some a -> col i (transpose A) = a.
Proof.
  intros HA Hi.
  assert (Hpos : 0 < r).
  { destruct HA as [Hl _]. apply lookup_lt_Some in Hi. lia. }
  pose proof (ncols_shape A r c HA Hpos) as Hc.
  assert (Hla : length a = c).
  { destruct HA as [_ Hr]. rewrite List.Forall_forall in Hr. apply Hr.
    apply list_elem_of_In. eapply list_elem_of_lookup_2. exact Hi. }
  unfold col at 1, transpose. rewrite map_map, Hc, <- Hla.
  transitivity (map (fun j => nth j a f0) (seq 0 (length a))); [|apply map_nth_seq].
  apply map_ext. intros j. unfold col.
  exact (nth_map_lookup (fun r => nth j r f0) A i a f0 Hi).
Qed.

Lemma np_dot_vm_lookup (a : vector F) B j :
  j < ncols B -> np_dot_vm a B !! j = Some (vdot a (col j B)).
Proof.
  intros Hj. unfold np_dot_vm. rewrite lookup_map, lookup_seq_lt by exact Hj.
  reflexivity.
Qed.


(** C8.  On a fitted model, for a conformant q x m query, [predict] returns
    mu_pred = (x - mu_X) w_mu + mu_Y and var_pred = 1/beta + x_c D x_c^T with
    D = V^T diag(1/(beta d^2 + alpha)) V; D is m x m, var_pred is q x q, and
    the i-th diagonal entry of var_pred is 1/beta + x_i D x_i^T for the i-th
    centred query row x_i. *)
Theorem predict_fitted (w : world F) a b wm k m q :
  fitted (self w) a b wm ->
  has_shape (v (self w)) k m -> length (d (self w)) = k -> 0 < k -> 0 < m ->
  has_shape (arg_x w) q m -> length (mu_X (self w)) = m ->
  let x_c := msub_row (arg_x w) (mu_X (self w)) in
  let D := np_dot_mm
             (np_dot_mm (transpose (v (self w)))
                (np_diag (vmap (fun e => fdiv f1 e) (bdsq_a b (vsq (d (self w))) a))))
             (v (self w)) in
  let mu_pred := vadds (np_dot_mv x_c wm) (mu_Y (self w)) in
  let var_pred := sadd_m (fdiv f1 b) (np_dot_mm (np_dot_mm x_c D) (transpose x_c)) in
  predict w = (inr (Arr1 mu_pred, var_pred), w, []) /\
  length mu_pred = q /\
  has_shape D m m /\
  has_shape var_pred q q /\
  forall i x_i, x_c !! i = Some x_i ->
    exists row, var_pred !! i = Some row /\
                row !! i = Some (fadd (fdiv f1 b) (vdot (np_dot_vm x_i D) x_i)).
Proof.
  intros (Ha & Hb & Hw) Hv Hd Hk Hm Hx HmuX x_c D mu_pred var_pred.
  assert (Hxc : has_shape x_c q m) by (apply msub_row_shape; assumption).
  assert (HncolsT : ncols (transpose x_c) = q) by (eapply ncols_transpose; eassumption).
  assert (HD : has_shape D m m).
  { pose proof (np_dot_mm_shape
                  (np_dot_mm (transpose (v (self w)))
                     (np_diag (vmap (fun e => fdiv f1 e) (bdsq_a b (vsq (d (self w))) a))))
                  (v (self w))) as HD.
    rewrite length_np_dot_mm in HD.
    destruct (transpose_shape _ _ _ Hv Hk) as [HlT _]. rewrite HlT in HD.
    rewrite (ncols_shape _ _ _ Hv Hk) in HD. exact HD. }
  split; [|split; [|split; [exact HD|split]]].
  - unfold predict, bind, get_arg_x, get_self, py_truediv, ret. cbn.
    rewrite Ha, Hb, Hw. reflexivity.
  - unfold mu_pred, vadds, vmap, np_dot_mv. rewrite !length_map. apply Hxc.
  - unfold var_pred, sadd_m. apply mmap_shape.
    pose proof (np_dot_mm_shape (np_dot_mm x_c D) (transpose x_c)) as Hs.
    rewrite length_np_dot_mm, HncolsT in Hs.
    destruct Hxc as [Hlx _]. rewrite Hlx in Hs. exact Hs.
  - intros i x_i Hi.
    assert (Hiq : i < q).
    { destruct Hxc as [Hlx _]. apply lookup_lt_Some in Hi. lia. }
    eexists. split.
    + unfold var_pred, sadd_m, mmap, np_dot_mm. rewrite !lookup_map, Hi. reflexivity.
    + rewrite lookup_map, np_dot_vm_lookup by (rewrite HncolsT; exact Hiq).
      cbn. rewrite (col_transpose x_c q m i x_i Hxc Hi). reflexivity.
Qed.


(** A normal return of [fit] leaves a fitted instance. *)
Lemma fit_establishes_fitted method max_iter rnd (w : world F) p :
  res (fit method max_iter rnd w) = inr p ->
  exists a b wm, fitted (self (final (fit method max_iter rnd w))) a b wm.
Proof.
  intros Hp.
  destruct (evidence_approx_cases max_iter method rnd w) as [(e & H1 & H2)|(a & b & H1 & H2)].
  - apply fit_raises_in_evidence_approx in H1 as [H1 _]. congruence.
  - exists a, b. unfold res, final in *.
    destruct (_evidence_approx max_iter method rnd w) as [[r1 w1] l1] eqn:E.
    cbn in H1, H2. subst r1 w1.
    rewrite (fit_after_evidence_approx _ _ _ _ _ _ a b E eq_refl eq_refl) in *.
    cbn in *. destruct (bias_term (self w)); [|discriminate].
    eexists. repeat split.
Qed.

End Properties.

(** * The model run on the two data sets *)

(** The factorisations handed to the constructor are economy SVDs of the
    centred design matrices: X = U diag(d) V, with U^T U = I and V V^T = I. *)
Lemma demo_svd_factorises :
  let s := self (demo_world true None) in
  np_dot_mm (np_dot_mm (u s) (np_diag (d s))) (v s) = X s /\
  np_dot_mm (transpose (u s)) (u s) = [[1%Q]] /\
  np_dot_mm (v s) (transpose (v s)) = [[1%Q]].
Proof. vm_compute. repeat split. Qed.

Lemma demo2_svd_factorises :
  let s := self demo2_world in
  np_dot_mm (np_dot_mm (u s) (np_diag (d s))) (v s) = X s /\
  np_dot_mm (transpose (u s)) (u s) = [[1; 0]; [0; 1]]%Q /\
  np_dot_mm (v s) (transpose (v s)) = [[1; 0]; [0; 1]]%Q.
Proof. vm_compute. repeat split. Qed.

(** A complete fit with bias_term = True: three keys in the result. *)
Example fit_demo_result :
  exists p,
    res (fit "fixed-point" 1 demo_rnd (demo_world true (Some demo_Y))) = inr p /\
    p !! "bias_term" = Some (Num (NpFloat 5%Q)) /\
    p !! "weights" = Some (Arr1 [3456 # 1195]) /\
    p !! "precision" = Some (Arr2 [[5975 # 1548]]).
Proof. eexists. split; [vm_compute; reflexivity|]. vm_compute. repeat split. Qed.

(** C1.  The loop reads the module-level name Y, not self.Y.  Without such a
    name [fit] raises NameError before any posterior mean exists; with a
    module-level Y = (8, 0, 0, 0) the first posterior mean is 8/5, whereas
    the formula on the model's centred response gives 12/5. *)
Theorem loop_mean_reads_global_Y :
  fit "fixed-point" 1 demo_rnd (demo_world true None)
    = (inl NameError, demo_world true None, []) /\
  let w := demo_world true (Some [8; 0; 0; 0]%Q) in
  let s := self w in
  hd_error (trace (fit "fixed-point" 1 demo_rnd w)) = Some (EvMean [8 # 5]) /\
  Y s = [2; 4; -3; -3]%Q /\
  ea_mean s (Y s) (vsq (d s)) (1 # 2) (1 # 2) = [12 # 5].
Proof. split; [reflexivity|]. vm_compute. repeat split. Qed.

(** C2.  On a model constructed with bias_term = False, [fit] raises
    AttributeError at [self.bias_term]: the constructor never assigned the
    attribute.  The centring does not depend on bias_term. *)
Theorem fit_default_bias_term_raises :
  let w := demo_world false (Some demo_Y) in
  bias_term (self w) = None /\
  res (fit "fixed-point" 1 demo_rnd w) = inl AttributeError /\
  res (fit "EM" 1 demo_rnd w) = inl AttributeError /\
  X (self w) = X (self (demo_world true (Some demo_Y))) /\
  Y (self w) = Y (self (demo_world true (Some demo_Y))).
Proof. vm_compute. repeat split. Qed.

(** C3.  In the EM branch the beta update reads the alpha assigned on the
    line before.  With n = 4, m = 1, dsq = (4), mu.mu = 144/25, sqdErr =
    86/25 and alpha = beta = 1/2, the loop computes alpha = 25/154 and
    beta = 16650/22019; evaluated at the previous alpha the beta update would
    give 50/63. *)
Theorem EM_beta_update_reads_new_alpha :
  let w := demo_world true (Some demo_Y) in
  let s := self w in
  let dsq := vsq (d s) in
  let mu := ea_mean s demo_Y dsq (1 # 2) (1 # 2) in
  let sq := ea_sqdErr s mu in
  vdot mu mu = 144 # 25 /\ sq = 86 # 25 /\
  nth 2 (trace (fit "EM" 1 demo_rnd w)) (EvLogLike 0%Q)
    = EvUpdate (25 # 154) (16650 # 22019) /\
  EM_update 4 1 dsq mu sq (1 # 2) (1 # 2) = (25 # 154, 16650 # 22019) /\
  EM_update_snapshot 4 1 dsq mu sq (1 # 2) (1 # 2) = (25 # 154, 50 # 63).
Proof. vm_compute. repeat split. Qed.

(** C4.  [_weights_posterior_params] adds alpha to every entry of
    beta X^T X.  With X^T X = 4 I, alpha = 1/2 and beta = 2 it returns
    ((17/2, 1/2), (1/2, 17/2)); beta X^T X + alpha I is
    ((17/2, 0), (0, 17/2)).  After [fit] both off-diagonal entries of
    w_precision equal the fitted alpha. *)
Theorem posterior_precision_broadcasts_alpha :
  let s := self demo2_world in
  np_dot_mm (transpose (X s)) (X s) = [[4; 0]; [0; 4]]%Q /\
  res (_weights_posterior_params (NpFloat (1 # 2)) (NpFloat 2%Q) demo2_world)
    = inr ([48 # 17; -8 # 17], [[17 # 2; 1 # 2]; [1 # 2; 17 # 2]]) /\
  posterior_precision_spec s (1 # 2) 2%Q = [[17 # 2; 0%Q]; [0%Q; 17 # 2]] /\
  let s' := self (final (fit "EM" 1 demo_rnd demo2_world)) in
  alpha s' = NpFloat (25 # 84) /\
  w_precision s' = Some [[3601975 # 1208172; 25 # 84]; [25 # 84; 3601975 # 1208172]].
Proof. vm_compute. repeat split. Qed.

(** C5, as stated, fails: with method "gibbs" [fit] raises ValueError only
    after the first posterior mean (12/5) and squared residual (86/25) have
    been computed. *)
Lemma fit_invalid_method_not_immediate :
  let r := fit "gibbs" 100 demo_rnd (demo_world true (Some demo_Y)) in
  res r = inl ValueError /\
  trace r = [EvMean [12 # 5]; EvResidual (86 # 25)] /\
  trace r <> [].
Proof. vm_compute. repeat split. discriminate. Qed.

(** With max_iter = 0 the loop body never runs and an invalid method name
    goes unnoticed. *)
Example fit_invalid_method_zero_iterations :
  exists p, res (fit "gibbs" 0 demo_rnd (demo_world true (Some demo_Y))) = inr p.
Proof. eexists. vm_compute. reflexivity. Qed.

Lemma fit_invalid_method_witness :
  let w := demo_world true (Some demo_Y) in
  ("gibbs" <> "EM" /\ "gibbs" <> "fixed-point" /\
   global_Y w = Some demo_Y /\ 100 <> 0) /\
  fit "gibbs" 100 demo_rnd w =
    (inl ValueError, w,
     [EvMean (ea_mean (self w) demo_Y (vsq (d (self w))) (1 # 2) (1 # 2));
      EvResidual (ea_sqdErr (self w)
                    (ea_mean (self w) demo_Y (vsq (d (self w))) (1 # 2) (1 # 2)))]).
Proof.
  cbv zeta. split.
  - repeat split; discriminate.
  - apply (fit_invalid_method "gibbs" 100 demo_rnd (demo_world true (Some demo_Y)) demo_Y).
    + discriminate.
    + discriminate.
    + reflexivity.
    + discriminate.
Defined.

(** C6, as stated, fails: on a fresh model [predict] raises
    ZeroDivisionError, which is not a not-fitted error. *)
Lemma predict_before_fit_not_notfitted :
  let w := demo_world true (Some demo_Y) in
  res (predict w) = inl ZeroDivisionError /\
  res (predict w) <> inl NotFittedError.
Proof. vm_compute. split; [reflexivity|discriminate]. Qed.

(** C7, as stated, fails: when the class is imported (no module-level Y) the
    first pass raises NameError, and with the method "gibbs" it raises
    ValueError; in both runs no pass completes, so the loop neither stops
    through the threshold after a pass i >= 2 nor performs max_iter = 3
    passes. *)
Lemma evidence_approx_stopping_rule_needs_passes :
  let claimed (r : (exn + unit) * world Q * list (event Q)) (thr : Q) :=
    let lls := loglikes_of (trace r) in
    res r = inr tt /\
    (length lls = 3 \/ (2 <= length lls /\ stop_test thr lls (length lls) = true)) in
  let r1 := _evidence_approx 3 "fixed-point" demo_rnd (demo_world true None) in
  let r2 := _evidence_approx 3 "gibbs" demo_rnd (demo_world true (Some demo_Y)) in
  (res r1 = inl NameError /\ length (loglikes_of (trace r1)) = 0 /\
   ~ claimed r1 (1 # 100000)%Q) /\
  (res r2 = inl ValueError /\ length (loglikes_of (trace r2)) = 0 /\
   ~ claimed r2 (1 # 100000)%Q).
Proof.
  cbv zeta. split; (split; [vm_compute; reflexivity|]);
    (split; [vm_compute; reflexivity|]); intros [Hres _]; vm_compute in Hres;
    discriminate.
Qed.

(* With thresh = 0.1 and max_iter = 100 the loop makes three passes: the
   comparison fails after pass 2 and holds after pass 3. *)
Lemma evidence_approx_stopping_rule_witness :
  let w := demo_world_coarse in
  let r := _evidence_approx 100 "fixed-point" demo_rnd w in
  let lls := loglikes_of (trace r) in
  (valid_method "fixed-point" /\ global_Y w = Some demo_Y) /\
  res r = inr tt /\
  length (trace r) = 12 /\
  length lls = 3 /\
  stop_test (thresh (self w)) lls 3 = true /\
  stop_test (thresh (self w)) lls 2 = false.
Proof.
  cbv zeta.
  destruct (evidence_approx_stopping_rule "fixed-point" 100 demo_rnd
              demo_world_coarse demo_Y)
    as (Hres & Hlen & Hle & Hstop & Hearlier);
    [right; reflexivity|reflexivity|].
  assert (HN : length (loglikes_of
                         (trace (_evidence_approx 100 "fixed-point" demo_rnd
                                   demo_world_coarse))) = 3)
    by (vm_compute; reflexivity).
  rewrite HN in Hlen, Hstop, Hearlier.
  split; [split; [right|]; reflexivity|].
  split; [exact Hres|]. split; [exact Hlen|]. split; [exact HN|]. split.
  - apply Hstop. lia.
  - apply Hearlier. lia.
Defined.

(** Two runs of the stopping rule.  From (alpha, beta) = (1/2, 1/2) the
    log-likelihood rises by more than thresh and the loop uses all three
    passes; with a module-level Y = (8, 0, 0, 0) and (1/10, 1/2) it falls
    between the first two passes and the loop stops there, 98 passes early. *)
Example evidence_approx_runs_to_max_iter :
  let r := _evidence_approx 3 "fixed-point" demo_rnd (demo_world true (Some demo_Y)) in
  length (loglikes_of (trace r)) = 3.
Proof. vm_compute. reflexivity. Qed.

Example evidence_approx_stops_on_decrease :
  let r := _evidence_approx 100 "fixed-point" (1 # 10, 1 # 2)%Q
             (demo_world true (Some [8; 0; 0; 0]%Q)) in
  exists l1 l2,
    loglikes_of (trace r) = [l1; l2] /\ fltb l2 l1 = true.
Proof. vm_compute. do 2 eexists. split; reflexivity. Qed.

Lemma predict_fitted_witness :
  (fitted (self demo_fitted) (5 # 36) (40 # 43) [3456 # 1195] /\
   has_shape (v (self demo_fitted)) 1 1 /\ length (d (self demo_fitted)) = 1 /\
   0 < 1 /\ has_shape (arg_x demo_fitted) 2 1 /\
   length (mu_X (self demo_fitted)) = 1) /\
  predict demo_fitted =
    (inr (Arr1 [9431 # 1195; 5%Q],
          [[63769 # 47800; 43 # 40]; [43 # 40; 43 # 40]]),
     demo_fitted, []).
Proof.
  assert (Hf : fitted (self demo_fitted) (5 # 36) (40 # 43) [3456 # 1195])
    by (vm_compute; repeat split).
  assert (Hv : has_shape (v (self demo_fitted)) 1 1)
    by (split; [reflexivity | vm_compute; repeat constructor]).
  assert (Hx : has_shape (arg_x demo_fitted) 2 1)
    by (split; [reflexivity | vm_compute; repeat constructor]).
  split.
  - repeat split; try assumption; try reflexivity; try apply Hv; try apply Hx; lia.
  - destruct (predict_fitted demo_fitted (5 # 36) (40 # 43) [3456 # 1195] 1 1 2
                Hf Hv eq_refl ltac:(lia) ltac:(lia) Hx eq_refl) as [Hp _].
    rewrite Hp. vm_compute. reflexivity.
Defined.

(** C10.  A failing [fit] can leave the instance changed: on the model
    constructed with bias_term = False the call raises AttributeError after
    alpha, beta, w_mu and w_precision have been assigned. *)
Theorem fit_failure_after_writes :
  let w := demo_world false (Some demo_Y) in
  let r := fit "fixed-point" 1 demo_rnd w in
  res r = inl AttributeError /\
  (alpha (self w) = PyInt 0 /\ alpha (self (final r)) = NpFloat (5 # 36)) /\
  (beta (self w) = PyInt 0 /\ beta (self (final r)) = NpFloat (40 # 43)) /\
  (w_mu (self w) = Num (PyInt 0) /\ w_mu (self (final r)) = Arr1 [3456 # 1195]) /\
  (w_precision (self w) = None /\
   w_precision (self (final r)) = Some [[5975 # 1548]]).
Proof. vm_compute. repeat split. Qed.

(** * Further properties of the methods and of the script *)

Section MoreProperties.

Context {F : Type} `{Float64 F}.

(** ** Further properties of [fit] *)

Lemma ea_loop_raises_only method n m dsq fuel : forall i a b lls (w : world F) e,
  res (ea_loop method n m dsq fuel i a b lls w) = inl e ->
  (e = NameError /\ global_Y w = None) \/
  (e = ValueError /\ global_Y w <> None /\ ~ valid_method method).
Proof.
  induction fuel as [|fuel IH]; intros i a b lls w e; [discriminate|].
  destruct (global_Y w) as [y|] eqn:HY.
  - destruct (String.eqb_spec method "EM") as [HEM|HEM];
      [|destruct (String.eqb_spec method "fixed-point") as [HFP|HFP]].
    + rewrite (ea_loop_step method n m dsq w y fuel i a b lls (or_introl HEM) HY).
      cbv zeta. destruct (_ && _); [discriminate|]. unfold res at 1. cbn [fst].
      intros He. apply IH in He. rewrite HY in He. exact He.
    + rewrite (ea_loop_step method n m dsq w y fuel i a b lls (or_intror HFP) HY).
      cbv zeta. destruct (_ && _); [discriminate|]. unfold res at 1. cbn [fst].
      intros He. apply IH in He. rewrite HY in He. exact He.
    + rewrite (ea_loop_invalid method n m dsq w y fuel i a b lls HEM HFP HY).
      intros [= <-]. right. split; [reflexivity|]. split; [discriminate|].
      intros [?|?]; contradiction.
  - cbn [ea_loop]. unfold bind at 1.
    rewrite (ea_iteration_unbound method n m dsq a b w HY).
    intros [= <-]. left. split; reflexivity.
Qed.

Lemma evidence_approx_raises_only max_iter method rnd (w : world F) e :
  res (_evidence_approx max_iter method rnd w) = inl e ->
  max_iter <> 0 /\
  ((e = NameError /\ global_Y w = None) \/
   (e = ValueError /\ global_Y w <> None /\ ~ valid_method method)).
Proof.
  unfold _evidence_approx, bind, get_self, set_self, res.
  destruct (ea_loop _ _ _ _ _ _ _ _ _ _) as [[[e1|ab] w1] l1] eqn:E; cbn; [|discriminate].
  intros [= <-]. split.
  - intros ->. discriminate.
  - eapply ea_loop_raises_only. unfold res. rewrite E. reflexivity.
Qed.

Lemma evidence_approx_returns max_iter method rnd (w : world F) :
  max_iter = 0 \/ (valid_method method /\ global_Y w <> None) ->
  res (_evidence_approx max_iter method rnd w) = inr tt.
Proof.
  intros Hc.
  destruct (res (_evidence_approx max_iter method rnd w)) as [e|[]] eqn:E; [|reflexivity].
  apply evidence_approx_raises_only in E as [Hk [[_ HY]|(_ & _ & Hm)]];
    destruct Hc as [?|[? ?]]; contradiction.
Qed.


Lemma fit_outcome method max_iter rnd (w : world F) :
  let r := fit method max_iter rnd w in
  (exists e, r = (inl e, w, trace r) /\
             res (_evidence_approx max_iter method rnd w) = inl e) \/
  (exists a b, r = (fit_result a b w, posterior_written a b w, trace r) /\
     res (_evidence_approx max_iter method rnd w) = inr tt).
Proof.
  cbv zeta.
  destruct (evidence_approx_cases max_iter method rnd w)
    as [(e & Hea & _)|(a & b & H1 & H2)].
  - left. exists e. split; [|exact Hea].
    destruct (fit_raises_in_evidence_approx method max_iter rnd w e Hea) as (Hr & Hf & _).
    unfold res, final, trace in *.
    destruct (fit method max_iter rnd w) as [[r1 w1] l1]. cbn in Hr, Hf |- *.
    subst r1 w1. reflexivity.
  - right. exists a, b. split; [|exact H1]. unfold res, final in *.
    destruct (_evidence_approx max_iter method rnd w) as [[r1 w1] l1] eqn:E.
    cbn in H1, H2. subst r1 w1.
    rewrite (fit_after_evidence_approx _ _ _ _ _ _ a b E eq_refl eq_refl).
    unfold fit_result, posterior_written. cbn.
    destruct (bias_term (self w)); reflexivity.
Qed.

(** X2.  [fit] raises nothing but NameError (the name Y is unbound), ValueError
    (Y is bound and the method name is invalid) and AttributeError (the loop
    was passed and [bias_term] was never assigned); the first two only when
    the loop body runs at all. *)
Theorem fit_raises_only method max_iter rnd (w : world F) e :
  res (fit method max_iter rnd w) = inl e ->
  (e = NameError /\ max_iter <> 0 /\ global_Y w = None) \/
  (e = ValueError /\ max_iter <> 0 /\ global_Y w <> None /\ ~ valid_method method) \/
  (e = AttributeError /\ bias_term (self w) = None).
Proof.
  intros He.
  destruct (fit_outcome method max_iter rnd w) as [(e' & E & Hea)|(a & b & E & _)];
    rewrite E in He; cbn in He.
  - injection He as <-.
    apply evidence_approx_raises_only in Hea as [Hk [[-> HY]|(-> & HY & Hm)]];
      [left|right; left]; repeat split; assumption.
  - unfold fit_result in He. destruct (bias_term (self w)); [discriminate|].
    right. right. split; [congruence|reflexivity].
Qed.

(** X3.  With the name Y unbound and at least one pass requested, [fit] raises
    NameError whatever the method name, having computed and written
    nothing. *)
Theorem fit_unbound_Y method max_iter rnd (w : world F) :
  max_iter <> 0 -> global_Y w = None ->
  fit method max_iter rnd w = (inl NameError, w, []).
Proof.
  intros Hk HY. destruct max_iter as [|fuel]; [congruence|].
  unfold fit. apply bind_raises.
  unfold _evidence_approx. unfold bind at 1. unfold get_self at 1.
  rewrite (bind_raises _ _ w NameError w []); [reflexivity|].
  cbn [ea_loop]. apply bind_raises. apply ea_iteration_unbound. exact HY.
Qed.

(** X4.  With max_iter = 0 the loop body never runs: no method name is rejected,
    the name Y is not read, and the two random draws are stored as alpha and
    beta; [fit] then returns, or raises AttributeError if [bias_term] was
    never assigned. *)
Theorem fit_zero_iterations method rnd (w : world F) :
  let r := fit method 0 rnd w in
  trace r = [] /\
  alpha (self (final r)) = NpFloat (fst rnd) /\
  beta (self (final r)) = NpFloat (snd rnd) /\
  (bias_term (self w) = None /\ res r = inl AttributeError \/
   bias_term (self w) <> None /\ exists p, res r = inr p).
Proof.
  cbv zeta.
  assert (E : _evidence_approx 0 method rnd w
              = (inr tt, hyper_written (fst rnd) (snd rnd) w, [])) by reflexivity.
  rewrite (fit_after_evidence_approx _ _ _ _ _ _ (fst rnd) (snd rnd) E eq_refl eq_refl).
  cbn. destruct (bias_term (self w)); cbn; repeat split.
  - right. split; [discriminate|eauto].
  - left. split; reflexivity.
Qed.

Lemma fit_returns_normally method max_iter rnd (w : world F) b0 y :
  bias_term (self w) = Some b0 -> valid_method method -> global_Y w = Some y ->
  exists p, res (fit method max_iter rnd w) = inr p.
Proof.
  intros Hb Hm HY.
  destruct (fit_outcome method max_iter rnd w) as [(e & _ & Hea)|(a & b & E & _)].
  - rewrite evidence_approx_returns in Hea; [discriminate|].
    right. split; [exact Hm|congruence].
  - rewrite E. unfold fit_result. rewrite Hb. eexists. reflexivity.
Qed.

(** X1.  When [bias_term] was assigned, the method name is valid and the name Y is
    bound, [fit] returns a dictionary with exactly the keys "bias_term",
    "weights" and "precision", holding mu_Y and the w_mu and w_precision it
    has just stored. *)
Theorem fit_returns method max_iter rnd (w : world F) b0 y :
  bias_term (self w) = Some b0 -> valid_method method -> global_Y w = Some y ->
  let r := fit method max_iter rnd w in
  exists p wm P,
    res r = inr p /\
    dom p = {["bias_term"; "weights"; "precision"]} /\
    p !! "bias_term" = Some (Num (NpFloat (mu_Y (self w)))) /\
    p !! "weights" = Some (Arr1 wm) /\ w_mu (self (final r)) = Arr1 wm /\
    p !! "precision" = Some (Arr2 P) /\ w_precision (self (final r)) = Some P.
Proof.
  intros Hb Hm HY. cbv zeta.
  destruct (fit_outcome method max_iter rnd w) as [(e & _ & Hea)|(a & b & E & _)].
  - rewrite evidence_approx_returns in Hea; [discriminate|].
    right. split; [exact Hm|congruence].
  - rewrite E. unfold fit_result, posterior_written. rewrite Hb. cbn.
    eexists _, _, _. split; [reflexivity|].
    split; [|repeat split].
    rewrite !dom_insert_L, dom_empty_L. set_solver.
Qed.


(** X5.  When [bias_term] was never assigned, the method name is valid and the
    name Y is bound, [fit] raises AttributeError only after it has stored
    float hyperparameters, a weight vector and a precision matrix: the
    instance it leaves behind is a fitted one. *)
Theorem fit_missing_bias_term method max_iter rnd (w : world F) y :
  bias_term (self w) = None -> valid_method method -> global_Y w = Some y ->
  let r := fit method max_iter rnd w in
  res r = inl AttributeError /\
  exists a b wm P,
    fitted (self (final r)) a b wm /\ w_precision (self (final r)) = Some P.
Proof.
  intros Hb Hm HY. cbv zeta.
  destruct (fit_outcome method max_iter rnd w) as [(e & _ & Hea)|(a & b & E & _)].
  - rewrite evidence_approx_returns in Hea; [discriminate|].
    right. split; [exact Hm|congruence].
  - rewrite E. unfold fit_result. rewrite Hb. cbn.
    split; [reflexivity|]. exists a, b. eexists _, _. repeat split.
Qed.

Lemma fit_keeps_inputs method max_iter rnd (w : world F) :
  same_inputs (final (fit method max_iter rnd w)) w.
Proof.
  destruct (fit_outcome method max_iter rnd w) as [(e & E & _)|(a & b & E & _)];
    rewrite E; cbn; repeat split.
Qed.

(** X6.  [fit] writes alpha, beta, diag, w_mu and w_precision only: the data, the
    decomposition, thresh, bias_term, the module namespace and the caller's
    array are the same after the call, whether it returns or raises. *)
Theorem fit_frame method max_iter rnd (w : world F) :
  same_inputs (final (fit method max_iter rnd w)) w.
Proof. apply fit_keeps_inputs. Qed.

(** X7.  After a normal return of [fit] the stored posterior belongs to the stored
    hyperparameters: alpha and beta are floats, diag is d/(d^2 + alpha/beta),
    w_mu is the posterior-mean formula of the loop taken at self.Y, alpha and
    beta, and w_precision is line 77 at alpha and beta. *)
Theorem fit_posterior_consistent method max_iter rnd (w : world F) p :
  res (fit method max_iter rnd w) = inr p ->
  let s := self (final (fit method max_iter rnd w)) in
  exists a b,
    alpha s = NpFloat a /\ beta s = NpFloat b /\
    diag s = Some (vdiv (d s) (vadds (vsq (d s)) (fdiv a b))) /\
    w_mu s = Arr1 (ea_mean s (Y s) (vsq (d s)) a b) /\
    w_precision s = Some (posterior_precision s (NpFloat a) (NpFloat b)).
Proof.
  intros Hp. cbv zeta.
  destruct (fit_outcome method max_iter rnd w) as [(e & E & _)|(a & b & E & _)].
  - rewrite E in Hp. discriminate.
  - exists a, b. rewrite E. cbn. repeat split.
Qed.

(** ** Further properties of [predict] *)

(** X13.  On a world whose arrays are conformant for [predict] (a q x m
    query, m column means, a k x m factor V with k singular values, weights
    still 0 or of length m), [predict] raises exactly when beta is the int 0,
    and then it raises ZeroDivisionError; with a float beta, zero included,
    it does not raise. *)
Theorem predict_raises_iff (w : world F) q k m e :
  predict_conformant w q k m ->
  (res (predict w) = inl e <-> e = ZeroDivisionError /\ beta (self w) = PyInt 0).
Proof.
  intros _.
  unfold predict, res, bind, get_arg_x, get_self, py_truediv, ret, raise. cbn.
  destruct (beta (self w)) as [z|b]; cbn.
  - destruct (Z.eqb_spec z 0) as [->|Hz]; cbn.
    + split; [intros [= <-]; split; reflexivity|intros [-> _]; reflexivity].
    + split; [discriminate|]. intros [_ [= ?]]. contradiction.
  - split; [discriminate|]. intros [_ ?]. discriminate.
Qed.

(** X14.  Once [fit] has returned, or has raised AttributeError, [predict]
    returns for every conformant q x m query (m column means, a k x m factor
    V with k singular values, k, m >= 1) a mean vector of length q and a
    q x q variance matrix. *)
Theorem predict_after_fit method max_iter rnd (w : world F) (x : matrix F) q k m :
  (exists p, res (fit method max_iter rnd w) = inr p) \/
  res (fit method max_iter rnd w) = inl AttributeError ->
  0 < k -> 0 < m ->
  has_shape (v (self w)) k m -> length (d (self w)) = k ->
  length (mu_X (self w)) = m -> has_shape x q m ->
  exists mu var,
    res (predict (with_arg_x x (final (fit method max_iter rnd w))))
      = inr (Arr1 mu, var) /\
    length mu = q /\ has_shape var q q.
Proof.
  intros Hr Hk Hm Hv Hd HmuX Hx.
  destruct (fit_outcome method max_iter rnd w) as [(e & E & Hea)|(a & b & E & _)].
  - apply evidence_approx_raises_only in Hea as [_ [[-> _]|(-> & _)]];
      rewrite E in Hr; cbn in Hr; destruct Hr as [[p Hp]|Hp]; discriminate.
  - rewrite E.
    assert (Hxc : has_shape (msub_row x (mu_X (self w))) q m)
      by (apply msub_row_shape; assumption).
    eexists _, _. split; [reflexivity|]. split.
    + unfold vadds, vmap, np_dot_mv. rewrite !length_map. exact (proj1 Hxc).
    + unfold sadd_m. apply mmap_shape.
      match goal with
      | |- has_shape (np_dot_mm (np_dot_mm ?xc ?D) (transpose ?xc)) _ _ =>
          assert (Hxc' : has_shape xc q m) by exact Hxc;
          pose proof (np_dot_mm_shape (np_dot_mm xc D) (transpose xc)) as Hs;
          rewrite length_np_dot_mm in Hs;
          rewrite (ncols_transpose xc q m Hxc' Hm) in Hs;
          destruct Hxc' as [Hlx _]; rewrite Hlx in Hs; exact Hs
      end.
Qed.

(** ** The hyperparameters stored by [_evidence_approx] *)

Lemma ea_loop_last_update method n m dsq (w : world F) y :
  valid_method method -> global_Y w = Some y ->
  forall fuel i a0 b0 lls,
  exists pre a b ll,
    ea_loop method n m dsq (S fuel) i a0 b0 lls w =
      (inr (a, b), w, pre ++ [EvUpdate a b; EvLogLike ll]).
Proof.
  intros Hm HY. induction fuel as [|fuel IH]; intros i a0 b0 lls;
    rewrite (ea_loop_step method n m dsq w y _ i a0 b0 lls Hm HY); cbv zeta;
    set (mu := ea_mean (self w) y dsq a0 b0);
    set (sq := ea_sqdErr (self w) mu);
    set (ab := update_of method n m dsq mu sq a0 b0);
    set (ll := ea_log_like n m dsq mu sq (fst ab) (snd ab));
    destruct (_ && _).
  - exists [EvMean mu; EvResidual sq], (fst ab), (snd ab), ll.
    rewrite <- surjective_pairing. reflexivity.
  - exists [EvMean mu; EvResidual sq], (fst ab), (snd ab), ll. reflexivity.
  - exists [EvMean mu; EvResidual sq], (fst ab), (snd ab), ll.
    rewrite <- surjective_pairing. reflexivity.
  - destruct (IH (S i) (fst ab) (snd ab) (lls ++ [ll])) as (pre & a & b & ll' & ->).
    exists ([EvMean mu; EvResidual sq; EvUpdate (fst ab) (snd ab); EvLogLike ll] ++ pre),
      a, b, ll'.
    unfold res, final, trace. cbn [fst snd]. rewrite <- app_assoc. reflexivity.
Qed.

(** X11.  With a valid method, the name Y bound and at least one pass,
    [_evidence_approx] stores the alpha and beta of the last update it made:
    the pass that ends the loop, through the threshold or through max_iter,
    is not discarded. *)
Theorem evidence_approx_stores_last_update method max_iter rnd (w : world F) y :
  valid_method method -> global_Y w = Some y -> max_iter <> 0 ->
  let r := _evidence_approx max_iter method rnd w in
  exists pre a b ll,
    trace r = pre ++ [EvUpdate a b; EvLogLike ll] /\
    alpha (self (final r)) = NpFloat a /\
    beta (self (final r)) = NpFloat b.
Proof.
  intros Hm HY Hk. destruct max_iter as [|fuel]; [congruence|]. cbv zeta.
  destruct (ea_loop_last_update method (length (X (self w))) (ncols (X (self w)))
              (vsq (d (self w))) w y Hm HY fuel 0 (fst rnd) (snd rnd) [])
    as (pre & a & b & ll & E).
  exists pre, a, b, ll.
  unfold _evidence_approx, bind, get_self, set_self, trace, final.
  rewrite E. cbn. rewrite !app_nil_r. repeat split.
Qed.

(** ** Symmetry of the posterior precision *)

Lemma zip_with_comm (f : F -> F -> F) :
  (forall a b, f a b = f b a) ->
  forall l k : list F, zip_with f l k = zip_with f k l.
Proof.
  intros Hf. induction l as [|a l IH]; intros [|b k]; cbn; try reflexivity.
  rewrite Hf, IH. reflexivity.
Qed.

Lemma entry_mmap f (A : matrix F) i j : entry (mmap f A) i j = f <$> entry A i j.
Proof.
  unfold entry, mmap. rewrite lookup_map.
  destruct (A !! i) as [r|]; cbn; [apply lookup_map|reflexivity].
Qed.

Lemma entry_gram (A : matrix F) i j :
  i < ncols A -> j < ncols A ->
  entry (np_dot_mm (transpose A) A) i j = Some (vdot (col i A) (col j A)).
Proof.
  intros Hi Hj. unfold entry, np_dot_mm, transpose.
  rewrite !lookup_map, lookup_seq_lt by exact Hi. cbn.
  apply np_dot_vm_lookup. exact Hj.
Qed.

(** X12.  When float multiplication is commutative (as it is in IEEE arithmetic),
    the precision matrix returned by [_weights_posterior_params] is
    symmetric: entries (i, j) and (j, i) exist and are equal, for all
    i, j < m. *)
Theorem posterior_precision_symmetric (w : world F) a0 b0 wm P n m i j :
  (forall a b : F, fmul a b = fmul b a) ->
  has_shape (X (self w)) n m -> 0 < n -> i < m -> j < m ->
  res (_weights_posterior_params a0 b0 w) = inr (wm, P) ->
  exists e, entry P i j = Some e /\ entry P j i = Some e.
Proof.
  intros Hc HX Hn Hi Hj.
  pose proof (ncols_shape _ _ _ HX Hn) as Hm. rewrite <- Hm in Hi, Hj.
  unfold _weights_posterior_params, res, bind, get_self, set_self, py_truediv, ret, raise.
  cbn.
  assert (HP : forall P, P = posterior_precision (self w) a0 b0 ->
               exists e, entry P i j = Some e /\ entry P j i = Some e).
  { intros ? ->. rewrite posterior_precision_every_entry, !entry_mmap.
    rewrite !entry_gram by assumption. cbn. eexists. split; [reflexivity|].
    unfold vdot. rewrite (zip_with_comm fmul Hc). reflexivity. }
  destruct a0 as [p|a], b0 as [q|b]; [destruct (Z.eqb q 0); [discriminate|]|..];
    cbn; intros [= <- <-]; apply HP; reflexivity.
Qed.


(** ** Shapes kept by the constructor and by [fit] *)



Lemma bias_term_init svd (X0 : matrix F) Y0 bias thr :
  bias_term (init svd X0 Y0 bias thr) = if bias then Some (np_mean Y0) else None.
Proof. unfold init. destruct (svd _) as [[u0 d0] v0]. reflexivity. Qed.


(** X10.  When [fit] returns on an n x m design matrix (n >= 1) with a k x m factor
    V (k >= 1), the weights have length m and the precision is m x m. *)
Theorem fit_output_shapes method max_iter rnd (w : world F) p n k m :
  has_shape (X (self w)) n m -> 0 < n ->
  has_shape (v (self w)) k m -> 0 < k ->
  res (fit method max_iter rnd w) = inr p ->
  exists wm P,
    p !! "weights" = Some (Arr1 wm) /\ length wm = m /\
    p !! "precision" = Some (Arr2 P) /\ has_shape P m m.
Proof.
  intros HX Hn Hv Hk Hp.
  destruct (fit_outcome method max_iter rnd w) as [(e & E & _)|(a & b & E & _)];
    rewrite E in Hp; cbn in Hp; [discriminate|].
  unfold fit_result in Hp. destruct (bias_term (self w)); [|discriminate].
  injection Hp as <-.
  eexists _, _. split; [reflexivity|]. split; [|split; [reflexivity|]].
  - unfold posterior_mean, np_dot_mv. rewrite length_map, length_np_dot_mm.
    destruct (transpose_shape _ _ _ Hv Hk) as [Hl _]. exact Hl.
  - unfold posterior_precision, madds, mscale. do 2 apply mmap_shape.
    pose proof (np_dot_mm_shape (transpose (X (self w))) (X (self w))) as Hs.
    destruct (transpose_shape _ _ _ HX Hn) as [Hl _].
    rewrite Hl, (ncols_shape _ _ _ HX Hn) in Hs. exact Hs.
Qed.

(** ** The script *)

(** The script always runs to completion: Y is bound at module level and
    bias_term is True, so [fit] returns its three-key dictionary and
    [predict] returns a mean vector and a variance matrix, whatever the
    decomposition, the noise and the random draws are. *)



Lemma fit_then_predict_returns method max_iter rnd (w : world F) b0 y :
  bias_term (self w) = Some b0 -> valid_method method -> global_Y w = Some y ->
  exists prs mu var,
    res (bind (fit method max_iter rnd)
              (fun prs => bind predict (fun r => ret (prs, r))) w)
      = inr (prs, (Arr1 mu, var)) /\
    dom prs = {["bias_term"; "weights"; "precision"]}.
Proof.
  intros Hb Hm HY.
  destruct (fit_outcome method max_iter rnd w) as [(e & _ & Hea)|(a & b & E & _)].
  - rewrite evidence_approx_returns in Hea; [discriminate|].
    right. split; [exact Hm|congruence].
  - unfold bind at 1. rewrite E. unfold fit_result. rewrite Hb.
    eexists _, _, _. split; [reflexivity|].
    rewrite !dom_insert_L, dom_empty_L. set_solver.
Qed.

(** X16.  The script always runs to completion: Y is bound at module level and
    bias_term is True, so [fit] returns its three-key dictionary and
    [predict] returns a mean vector and a variance matrix, whatever the
    decomposition, the noise and the random draws are. *)
Theorem main_completes svd eps (noise : vector F) rnd :
  exists prs mu var,
    res (main svd eps noise rnd) = inr (prs, (Arr1 mu, var)) /\
    dom prs = {["bias_term"; "weights"; "precision"]}.
Proof.
  unfold main.
  eapply fit_then_predict_returns.
  - cbn [self]. rewrite bias_term_init. reflexivity.
  - right. reflexivity.
  - reflexivity.
Qed.


(** ** What [fit] reads *)

Lemma ea_iteration_same_inputs method n m dsq a b (w1 w2 : world F) :
  same_inputs w1 w2 ->
  res (ea_iteration method n m dsq a b w1) = res (ea_iteration method n m dsq a b w2) /\
  trace (ea_iteration method n m dsq a b w1) = trace (ea_iteration method n m dsq a b w2).
Proof.
  intros (_ & HX & _ & HY & _ & _ & Hu & Hd & Hv & _ & HG & _).
  unfold ea_iteration, ea_mean, ea_sqdErr, res, trace, bind, get_self,
    lookup_global_Y, emit, ret, raise.
  rewrite HX, HY, Hu, Hd, Hv, HG.
  destruct (global_Y w2); cbn; [|split; reflexivity].
  destruct (String.eqb method "fixed-point"); cbn; [split; reflexivity|].
  destruct (String.eqb method "EM"); cbn; split; reflexivity.
Qed.

Lemma ea_loop_same_inputs method n m dsq (w1 w2 : world F) :
  same_inputs w1 w2 ->
  forall fuel i a b lls,
  res (ea_loop method n m dsq fuel i a b lls w1)
    = res (ea_loop method n m dsq fuel i a b lls w2) /\
  trace (ea_loop method n m dsq fuel i a b lls w1)
    = trace (ea_loop method n m dsq fuel i a b lls w2).
Proof.
  intros Hs. induction fuel as [|fuel IH]; intros i a b lls; [split; reflexivity|].
  cbn [ea_loop]. unfold bind at 1 3 5 7.
  destruct (ea_iteration_same_inputs method n m dsq a b w1 w2 Hs) as [Hr Ht].
  pose proof (ea_iteration_frame method n m dsq a b w1) as Hf1.
  pose proof (ea_iteration_frame method n m dsq a b w2) as Hf2.
  unfold res, final, trace in Hr, Ht, Hf1, Hf2.
  destruct (ea_iteration method n m dsq a b w1) as [[r1 w1'] l1].
  destruct (ea_iteration method n m dsq a b w2) as [[r2 w2'] l2].
  cbn in Hr, Ht, Hf1, Hf2. subst r2 l2 w1' w2'.
  destruct r1 as [e|r]; [split; reflexivity|].
  unfold bind, get_self.
  assert (Hthr : thresh (self w1) = thresh (self w2)) by apply Hs.
  rewrite Hthr. destruct (_ && _); [split; reflexivity|].
  specialize (IH (S i) (fst (fst r)) (snd (fst r)) (lls ++ [snd r])).
  unfold res, trace in *.
  destruct (ea_loop method n m dsq fuel (S i) _ _ _ w1) as [[r3 w3] l3].
  destruct (ea_loop method n m dsq fuel (S i) _ _ _ w2) as [[r4 w4] l4].
  cbn in *. destruct IH as [-> ->]. split; reflexivity.
Qed.

Lemma fit_past_loop method max_iter rnd (w : world F) a b l :
  ea_loop method (length (X (self w))) (ncols (X (self w))) (vsq (d (self w)))
    max_iter 0 (fst rnd) (snd rnd) [] w = (inr (a, b), w, l) ->
  fit method max_iter rnd w = (fit_result a b w, posterior_written a b w, l).
Proof.
  intros E.
  assert (Ea : _evidence_approx max_iter method rnd w = (inr tt, hyper_written a b w, l)).
  { unfold _evidence_approx, bind, get_self, set_self. rewrite E. cbn.
    rewrite !app_nil_r. reflexivity. }
  rewrite (fit_after_evidence_approx _ _ _ _ _ _ a b Ea eq_refl eq_refl).
  unfold fit_result, posterior_written. cbn.
  destruct (bias_term (self w)); reflexivity.
Qed.

Lemma fit_in_loop method max_iter rnd (w : world F) e l :
  ea_loop method (length (X (self w))) (ncols (X (self w))) (vsq (d (self w)))
    max_iter 0 (fst rnd) (snd rnd) [] w = (inl e, w, l) ->
  fit method max_iter rnd w = (inl e, w, l).
Proof.
  intros E. unfold fit. apply bind_raises.
  unfold _evidence_approx, bind, get_self. rewrite E. reflexivity.
Qed.

Lemma past_loop_same_inputs a b (w1 w2 : world F) :
  same_inputs w1 w2 ->
  fit_result a b w1 = fit_result a b w2 /\
  posterior_written a b w1 = posterior_written a b w2.
Proof.
  destruct w1 as [[] g1 x1], w2 as [[] g2 x2]. unfold same_inputs. cbn.
  intros (-> & -> & -> & -> & -> & -> & -> & -> & -> & -> & -> & ->).
  split; reflexivity.
Qed.

Lemma fit_reads_inputs_only method max_iter rnd (w1 w2 : world F) :
  same_inputs w1 w2 ->
  let r1 := fit method max_iter rnd w1 in
  let r2 := fit method max_iter rnd w2 in
  res r1 = res r2 /\ trace r1 = trace r2 /\
  (final r1 = w1 /\ final r2 = w2 \/ final r1 = final r2).
Proof.
  intros Hs. cbv zeta.
  pose proof Hs as (_ & HX & _ & _ & _ & _ & _ & Hd & _).
  destruct (ea_loop_same_inputs method (length (X (self w1))) (ncols (X (self w1)))
              (vsq (d (self w1))) w1 w2 Hs max_iter 0 (fst rnd) (snd rnd) [])
    as [Hr Ht].
  pose proof (ea_loop_frame method (length (X (self w1))) (ncols (X (self w1)))
                (vsq (d (self w1))) max_iter 0 (fst rnd) (snd rnd) [] w1) as Hf1.
  pose proof (ea_loop_frame method (length (X (self w1))) (ncols (X (self w1)))
                (vsq (d (self w1))) max_iter 0 (fst rnd) (snd rnd) [] w2) as Hf2.
  unfold res, final, trace in Hr, Ht, Hf1, Hf2.
  destruct (ea_loop _ _ _ _ _ _ _ _ _ w1) as [[q1 w1'] l1] eqn:E1.
  destruct (ea_loop _ _ _ _ _ _ _ _ _ w2) as [[q2 w2'] l2] eqn:E2.
  cbn in Hr, Ht, Hf1, Hf2. subst q2 l2 w1' w2'.
  rewrite HX, Hd in E2.
  destruct q1 as [e|[a b]].
  - rewrite (fit_in_loop _ _ _ _ _ _ E1), (fit_in_loop _ _ _ _ _ _ E2). cbn.
    split; [reflexivity|]. split; [reflexivity|]. left. split; reflexivity.
  - rewrite (fit_past_loop _ _ _ _ _ _ _ E1), (fit_past_loop _ _ _ _ _ _ _ E2).
    destruct (past_loop_same_inputs a b w1 w2 Hs) as [Hres Hfin].
    unfold res, final, trace. cbn [fst snd].
    split; [exact Hres|]. split; [reflexivity|]. right. exact Hfin.
Qed.

(** X8.  [fit] reads neither alpha, beta, w_mu, w_precision nor diag: on two
    worlds that differ in these fields only, it gives the same result and
    the same sequence of computed values, and either both calls raise inside
    the loop, each leaving its world untouched, or both leave the same
    world. *)
Theorem fit_same_inputs method max_iter rnd (w1 w2 : world F) :
  same_inputs w1 w2 ->
  let r1 := fit method max_iter rnd w1 in
  let r2 := fit method max_iter rnd w2 in
  res r1 = res r2 /\ trace r1 = trace r2 /\
  (final r1 = w1 /\ final r2 = w2 \/ final r1 = final r2).
Proof. apply fit_reads_inputs_only. Qed.

(** X9.  Calling [fit] again with the same method, max_iter and random draws
    gives the same outcome and leaves the same world: nothing of an earlier
    fit is carried into the next one. *)
Theorem fit_idempotent method max_iter rnd (w : world F) :
  fit method max_iter rnd (final (fit method max_iter rnd w))
    = fit method max_iter rnd w.
Proof.
  pose proof (fit_keeps_inputs method max_iter rnd w) as Hs.
  destruct (fit_reads_inputs_only method max_iter rnd _ _ Hs) as (Hr & Ht & Hf).
  assert (Hfin : final (fit method max_iter rnd (final (fit method max_iter rnd w)))
                 = final (fit method max_iter rnd w)).
  { destruct Hf as [[Hf1 _]|Hf]; assumption. }
  unfold res, final, trace in *.
  destruct (fit method max_iter rnd w) as [[q w'] l]. cbn in *.
  destruct (fit method max_iter rnd w') as [[q2 w2'] l2]. cbn in *.
  subst. reflexivity.
Qed.

End MoreProperties.

(** * Instances of the further properties on the two data sets *)

Lemma Qfloat_fmul_comm (a b : Q) : fmul a b = fmul b a.
Proof. cbn. apply Qred_complete. apply Qmult_comm. Qed.

Lemma fit_raises_only_witness :
  let w := demo_world true (Some demo_Y) in
  res (fit "gibbs" 1 demo_rnd w) = inl ValueError /\
  ((ValueError = NameError /\ 1 <> 0 /\ global_Y w = None) \/
   (ValueError = ValueError /\ 1 <> 0 /\ global_Y w <> None /\ ~ valid_method "gibbs") \/
   (ValueError = AttributeError /\ bias_term (self w) = None)).
Proof.
  cbv zeta. split; [vm_compute; reflexivity|].
  apply (fit_raises_only "gibbs" 1 demo_rnd (demo_world true (Some demo_Y)) ValueError).
  vm_compute. reflexivity.
Defined.

Lemma fit_unbound_Y_witness :
  let w := demo_world true None in
  (1 <> 0 /\ global_Y w = None) /\
  fit "EM" 1 demo_rnd w = (inl NameError, w, []).
Proof.
  cbv zeta. split; [split; [discriminate|reflexivity]|].
  apply (fit_unbound_Y "EM" 1 demo_rnd (demo_world true None));
    [discriminate|reflexivity].
Defined.

Lemma fit_returns_witness :
  let w := demo_world true (Some demo_Y) in
  let r := fit "fixed-point" 1 demo_rnd w in
  (bias_term (self w) = Some 5%Q /\ valid_method "fixed-point" /\
   global_Y w = Some demo_Y) /\
  exists p wm P,
    res r = inr p /\
    dom p = {["bias_term"; "weights"; "precision"]} /\
    p !! "bias_term" = Some (Num (NpFloat (mu_Y (self w)))) /\
    p !! "weights" = Some (Arr1 wm) /\ w_mu (self (final r)) = Arr1 wm /\
    p !! "precision" = Some (Arr2 P) /\ w_precision (self (final r)) = Some P.
Proof.
  cbv zeta. split; [split; [reflexivity|split; [right|]; reflexivity]|].
  apply (fit_returns "fixed-point" 1 demo_rnd (demo_world true (Some demo_Y))
           5%Q demo_Y); [reflexivity|right; reflexivity|reflexivity].
Defined.

Lemma fit_missing_bias_term_witness :
  let w := demo_world false (Some demo_Y) in
  let r := fit "EM" 1 demo_rnd w in
  (bias_term (self w) = None /\ valid_method "EM" /\ global_Y w = Some demo_Y) /\
  res r = inl AttributeError /\
  exists a b wm P,
    fitted (self (final r)) a b wm /\ w_precision (self (final r)) = Some P.
Proof.
  cbv zeta. split; [split; [reflexivity|split; [left|]; reflexivity]|].
  apply (fit_missing_bias_term "EM" 1 demo_rnd (demo_world false (Some demo_Y)) demo_Y);
    [reflexivity|left; reflexivity|reflexivity].
Defined.

Lemma fit_posterior_consistent_witness :
  let w := demo_world true (Some demo_Y) in
  let s := self (final (fit "fixed-point" 1 demo_rnd w)) in
  exists p,
    res (fit "fixed-point" 1 demo_rnd w) = inr p /\
    exists a b,
      alpha s = NpFloat a /\ beta s = NpFloat b /\
      diag s = Some (vdiv (d s) (vadds (vsq (d s)) (fdiv a b))) /\
      w_mu s = Arr1 (ea_mean s (Y s) (vsq (d s)) a b) /\
      w_precision s = Some (posterior_precision s (NpFloat a) (NpFloat b)).
Proof.
  cbv zeta.
  destruct (fit_returns_normally "fixed-point" 1 demo_rnd
              (demo_world true (Some demo_Y)) 5%Q demo_Y) as [p Hp];
    [reflexivity|right; reflexivity|reflexivity|].
  exists p. split; [exact Hp|].
  exact (fit_posterior_consistent "fixed-point" 1 demo_rnd
           (demo_world true (Some demo_Y)) p Hp).
Defined.

Lemma predict_raises_iff_witness :
  let w := demo_world true (Some demo_Y) in
  predict_conformant w 2 1 1 /\
  (res (predict w) = inl ZeroDivisionError <->
   ZeroDivisionError = ZeroDivisionError /\ beta (self w) = PyInt 0).
Proof.
  assert (Hc : predict_conformant (demo_world true (Some demo_Y)) 2 1 1).
  { unfold predict_conformant. split; [lia|]. split; [lia|].
    split; [split; [reflexivity|vm_compute; repeat constructor]|].
    split; [reflexivity|].
    split; [split; [reflexivity|vm_compute; repeat constructor]|].
    split; [reflexivity|]. vm_compute. exact I. }
  cbv zeta. split; [exact Hc|].
  exact (predict_raises_iff (demo_world true (Some demo_Y)) 2 1 1
           ZeroDivisionError Hc).
Defined.

Lemma predict_after_fit_witness :
  let w := demo_world false (Some demo_Y) in
  (res (fit "fixed-point" 1 demo_rnd w) = inl AttributeError /\
   has_shape (v (self w)) 1 1 /\ length (d (self w)) = 1 /\
   length (mu_X (self w)) = 1 /\ has_shape demo_query 2 1) /\
  exists mu var,
    res (predict (with_arg_x demo_query (final (fit "fixed-point" 1 demo_rnd w))))
      = inr (Arr1 mu, var) /\
    length mu = 2 /\ has_shape var 2 2.
Proof.
  assert (Hv : has_shape (v (self (demo_world false (Some demo_Y)))) 1 1)
    by (split; [reflexivity|vm_compute; repeat constructor]).
  assert (Hx : has_shape demo_query 2 1)
    by (split; [reflexivity|vm_compute; repeat constructor]).
  assert (Hr : res (fit "fixed-point" 1 demo_rnd (demo_world false (Some demo_Y)))
               = inl AttributeError) by (vm_compute; reflexivity).
  cbv zeta. split; [repeat split; try assumption; try reflexivity; apply Hv || apply Hx|].
  apply (predict_after_fit "fixed-point" 1 demo_rnd (demo_world false (Some demo_Y))
           demo_query 2 1 1 (or_intror Hr) ltac:(lia) ltac:(lia) Hv eq_refl eq_refl Hx).
Defined.

Lemma evidence_approx_stores_last_update_witness :
  let w := demo_world true (Some demo_Y) in
  let r := _evidence_approx 2 "fixed-point" demo_rnd w in
  (valid_method "fixed-point" /\ global_Y w = Some demo_Y /\ 2 <> 0) /\
  exists pre a b ll,
    trace r = pre ++ [EvUpdate a b; EvLogLike ll] /\
    alpha (self (final r)) = NpFloat a /\
    beta (self (final r)) = NpFloat b.
Proof.
  cbv zeta. split; [split; [right; reflexivity|split; [reflexivity|discriminate]]|].
  apply (evidence_approx_stores_last_update "fixed-point" 2 demo_rnd
           (demo_world true (Some demo_Y)) demo_Y);
    [right; reflexivity|reflexivity|discriminate].
Defined.

Lemma posterior_precision_symmetric_witness :
  (has_shape (X (self demo2_world)) 4 2 /\
   res (_weights_posterior_params (NpFloat (1 # 2)) (NpFloat 2%Q) demo2_world)
     = inr ([48 # 17; -8 # 17], [[17 # 2; 1 # 2]; [1 # 2; 17 # 2]])) /\
  exists e,
    entry [[17 # 2; 1 # 2]; [1 # 2; 17 # 2]] 0 1 = Some e /\
    entry [[17 # 2; 1 # 2]; [1 # 2; 17 # 2]] 1 0 = Some e.
Proof.
  assert (HX : has_shape (X (self demo2_world)) 4 2)
    by (split; [reflexivity | vm_compute; repeat constructor]).
  split; [split; [exact HX|vm_compute; reflexivity]|].
  apply (posterior_precision_symmetric demo2_world (NpFloat (1 # 2)) (NpFloat 2%Q)
           [48 # 17; -8 # 17] [[17 # 2; 1 # 2]; [1 # 2; 17 # 2]] 4 2 0 1
           Qfloat_fmul_comm HX); [lia|lia|lia|vm_compute; reflexivity].
Defined.


Lemma fit_output_shapes_witness :
  (has_shape (X (self demo2_world)) 4 2 /\ has_shape (v (self demo2_world)) 2 2) /\
  exists p,
    res (fit "fixed-point" 1 demo_rnd demo2_world) = inr p /\
    exists wm P,
      p !! "weights" = Some (Arr1 wm) /\ length wm = 2 /\
      p !! "precision" = Some (Arr2 P) /\ has_shape P 2 2.
Proof.
  assert (HX : has_shape (X (self demo2_world)) 4 2)
    by (split; [reflexivity | vm_compute; repeat constructor]).
  assert (Hv : has_shape (v (self demo2_world)) 2 2)
    by (split; [reflexivity | vm_compute; repeat constructor]).
  split; [split; assumption|].
  destruct (fit_returns_normally "fixed-point" 1 demo_rnd demo2_world 5%Q demo_Y)
    as [p Hp]; [reflexivity|right; reflexivity|reflexivity|].
  exists p. split; [exact Hp|].
  exact (fit_output_shapes "fixed-point" 1 demo_rnd demo2_world p 4 2 2 HX
           ltac:(lia) Hv ltac:(lia) Hp).
Defined.

Lemma fit_same_inputs_witness :
  let w1 := demo_fitted in
  let w2 := demo_world true (Some demo_Y) in
  let r1 := fit "fixed-point" 1 demo_rnd w1 in
  let r2 := fit "fixed-point" 1 demo_rnd w2 in
  same_inputs w1 w2 /\
  res r1 = res r2 /\ trace r1 = trace r2 /\
  (final r1 = w1 /\ final r2 = w2 \/ final r1 = final r2).
Proof.
  assert (Hs : same_inputs demo_fitted (demo_world true (Some demo_Y)))
    by (vm_compute; repeat split).
  cbv zeta. split; [exact Hs|].
  apply (fit_same_inputs "fixed-point" 1 demo_rnd demo_fitted
           (demo_world true (Some demo_Y)) Hs).
Defined.
